(** * maxcalorie.hh: exhaustive and dynamic-programming 0/1 knapsack

    A shallow embedding of [sum_food_vector], [filter_food_vector],
    [exhaustive_max_calories] and [dynamic_max_calories] of
    [src/maxcalorie.hh], and the properties the specification states about
    them.

    Modelling conventions.
    - A C++ [double] is an exact rational ([Q]): no rounding, no NaN, no
      infinities.  Two doubles are "equal" when they are [Qeq]-equal.  This
      is the program's arithmetic as long as every sum and difference it
      computes is a [double] again.  Where a property compares totals of
      calories, the totals are those [sum_food_vector] computes, front to
      back, on the very collections the program adds up: a candidate of the
      exhaustive solver in input order, and the result of the
      dynamic-programming solver in input order too, which is the order its
      table adds the calories in (the solver returns the items last first).
      Where a property needs a sum to be exact, it says so: whole calories
      below [2^53] ([exact_calories]), weights that are multiples of
      [2^-20] ([dyadic_weights]) or integral ([integral_weights]).  Module
      [Binary64] holds the solvers on binary64 floats, and the end of the
      file runs them where rounding shows.
    - A [std::shared_ptr<FoodItem>] is the item itself (items are immutable
      and compared by value); a [FoodVector] is a [list FoodItem].
    - A C++ [int] is 32 bits wide.  Loop counters that provably stay inside
      a vector's bounds are [nat]; the conversion [double -> int] and the
      shift [i >> j] are written out, with the value they leave outside the
      range the language defines taken from the [platform].
    - A function that can stop the process ([assert], an uncaught exception)
      or read outside a vector returns an [outcome]. *)

From Stdlib Require Import ZArith QArith Qround Qminmax Lia Lqa List Bool String Ascii.
From Stdlib Require Import DecimalString.
From Corelib Require PrimFloat FloatOps SpecFloat Uint63Axioms.
From stdpp Require Import base list.

Local Open Scope Z_scope.
Local Open Scope list_scope.

(** ** Data model *)

(** [class FoodItem]: description, weight in ounces, calories. *)
Record FoodItem : Type := mkFoodItem {
  description : string;
  weight : Q;
  foodCalories : Q
}.

(** The two assertions of the constructor: a non-empty description and a
    strictly positive weight.  Every item that exists satisfies them. *)
Definition FoodItem_ok (f : FoodItem) : Prop :=
  description f <> EmptyString /\ (0 < weight f)%Q.

(** [typedef std::vector<std::shared_ptr<FoodItem>> FoodVector]. *)
Abbreviation FoodVector := (list FoodItem) (only parsing).

(** How a call ends. *)
Inductive outcome (A : Type) : Type :=
| Returned (a : A)   (* the function returns [a] *)
| Aborted            (* a failed [assert] or an uncaught exception *)
| Undefined.         (* a read outside a vector *)
Arguments Returned {A} a.
Arguments Aborted {A}.
Arguments Undefined {A}.

(** Comparison of doubles: [a < b]. *)
Definition Qlt_bool (a b : Q) : bool := negb (Qle_bool b a).

(** ** Aggregator: [sum_food_vector] *)

(** Returns [(total_weight, total_calories)], accumulated front to back from
    [0]. *)
Definition sum_food_vector (foods : FoodVector) : Q * Q :=
  fold_left
    (fun acc food => ((fst acc + weight food)%Q, (snd acc + foodCalories food)%Q))
    foods (0%Q, 0%Q).

Definition total_weight_of (foods : FoodVector) : Q := fst (sum_food_vector foods).
Definition total_calories_of (foods : FoodVector) : Q := snd (sum_food_vector foods).

(** ** Filter stage: [filter_food_vector] *)

(** The test of the loop body on the item itself. *)
Definition calories_match (min_calories max_calories : Q) (f : FoodItem) : bool :=
  Qlt_bool 0 (foodCalories f)
  && Qle_bool min_calories (foodCalories f)
  && Qle_bool (foodCalories f) max_calories.

(** One iteration of the loop over [source]: the item is pushed when it
    matches and [newFood->size() < total_size]. *)
Definition filter_step (min_calories max_calories : Q) (total_size : Z)
    (newFood : FoodVector) (f : FoodItem) : FoodVector :=
  if calories_match min_calories max_calories f
     && (Z.of_nat (length newFood) <? total_size)
  then newFood ++ [f]
  else newFood.

(** ["invalid total size\n"]. *)
Definition invalid_total_size : string :=
  String.append "invalid total size"
    (String (Ascii.Ascii false true false true false false false false) EmptyString).

(** The text written to [std::cout] and the pointer returned: [None] is
    [nullptr]. *)
Definition filter_food_vector (source : FoodVector)
    (min_calories max_calories : Q) (total_size : Z)
  : list string * option FoodVector :=
  if total_size <=? 0
  then ([invalid_total_size], None)
  else ([], Some (fold_left (filter_step min_calories max_calories total_size) source [])).

(** ** Exhaustive solver: [exhaustive_max_calories] *)

Definition int_min : Z := - 2 ^ 31.
Definition int_max : Z := 2 ^ 31 - 1.

(** What the machine leaves where C++ defines nothing: the [int] a
    conversion from an out-of-range [double] yields, and the result of a
    shift by 32 or more. *)
Record platform : Type := mkPlatform {
  conv_oor : Z;
  shr_oor : Z -> Z -> Z
}.

(** x86-64: [cvttsd2si] yields [INT_MIN]; [sar] uses the count modulo 32. *)
Definition x86_64 : platform :=
  {| conv_oor := int_min; shr_oor := fun i j => Z.shiftr i (j mod 32) |}.

(** [int nSquared = pow(2, n)]: [pow] is exact on these arguments, so the
    double is the integer [x]; the conversion keeps it when it fits. *)
Definition double_to_int (p : platform) (x : Z) : Z :=
  if (int_min <=? x) && (x <=? int_max) then x else conv_oor p.

(** [i >> j] on [int]. *)
Definition shr (p : platform) (i j : Z) : Z :=
  if j <? 32 then Z.shiftr i j else shr_oor p i j.

(** The inner loop: [candidate] holds [foods[j]] for every [j] with
    [((i >> j) & 1) == 1], pushed in increasing [j]. *)
Definition candidate_of (p : platform) (foods : FoodVector) (i : Z) : FoodVector :=
  fold_left
    (fun candidate j =>
       match foods !! j with
       | Some f =>
           if Z.land (shr p i (Z.of_nat j)) 1 =? 1 then candidate ++ [f] else candidate
       | None => candidate
       end)
    (seq 0 (length foods)) [].

(** The test that ends the outer loop's body: [*best = *candidate] when
    [candidateWeight <= total_weight] and
    [best->empty() || candidateCalories > bestCalories]. *)
Definition keep_better (total_weight : Q) (best candidate : FoodVector) : FoodVector :=
  let '(candidateWeight, candidateCalories) := sum_food_vector candidate in
  let '(bestWeight, bestCalories) := sum_food_vector best in
  if Qle_bool candidateWeight total_weight
  then
    if (match best with [] => true | _ => false end)
       || Qlt_bool bestCalories candidateCalories
    then candidate
    else best
  else best.

Definition exhaustive_step (p : platform) (foods : FoodVector) (total_weight : Q)
    (best : FoodVector) (i : Z) : FoodVector :=
  keep_better total_weight best (candidate_of p foods i).

(** The values [i] takes in [for (int i = 0; i < nSquared; i++)]. *)
Definition masks (nSquared : Z) : list Z :=
  map Z.of_nat (seq 0 (Z.to_nat nSquared)).

Definition nSquared_of (p : platform) (foods : FoodVector) : Z :=
  double_to_int p (2 ^ Z.of_nat (length foods)).

Definition exhaustive_max_calories (p : platform) (foods : FoodVector)
    (total_weight : Q) : outcome FoodVector :=
  let n := Z.of_nat (length foods) in
  if 64 <=? n
  then Aborted
  else
    Returned
      (fold_left (exhaustive_step p foods total_weight)
         (masks (nSquared_of p foods)) []).

(** ** Dynamic-programming solver: [dynamic_max_calories] *)

(** [std::vector<std::vector<double>>]; [K[i][w]] read and written by index.
    A read outside the table yields [0] here; [left_column_range] and
    [walk_from_sound] below show that on constructed items every column read
    is a column of the table. *)
Abbreviation table := (list (list Q)) (only parsing).

Definition K_get (K : table) (i w : nat) : Q :=
  match K !! i with
  | Some row => match row !! w with Some v => v | None => 0%Q end
  | None => 0%Q
  end.

Definition K_set (K : table) (i w : nat) (v : Q) : table :=
  match K !! i with
  | Some row => <[i := <[w := v]> row]> K
  | None => K
  end.

(** Conversion of a double to an integer type: truncation toward zero. *)
Definition Qtrunc (x : Q) : Z :=
  if Qle_bool 0 x then Qfloor x else Qceiling x.

(** [std::max(a, b)]: [(a < b) ? b : a]. *)
Definition std_max (a b : Q) : Q := if Qlt_bool a b then b else a.

(** The value the loop body stores in [K[i][w]]. *)
Definition cell (foods : FoodVector) (K : table) (i w : nat) : Q :=
  if (Nat.eqb i 0 || Nat.eqb w 0)%bool
  then 0%Q
  else
    match foods !! (i - 1)%nat with
    | Some f =>
        if Qle_bool (weight f) (inject_Z (Z.of_nat w))
        then
          std_max
            (foodCalories f
             + K_get K (i - 1) (Z.to_nat (Qtrunc (inject_Z (Z.of_nat w) - weight f))))%Q
            (K_get K (i - 1) w)
        else K_get K (i - 1) w
    | None => 0%Q
    end.

(** [for (int w = 0; w <= W; w++)] on row [i]. *)
Definition fill_row (foods : FoodVector) (W : nat) (K : table) (i : nat) : table :=
  fold_left (fun K w => K_set K i w (cell foods K i w)) (seq 0 (S W)) K.

(** [for (int i = 0; i <= n; i++)]. *)
Definition fill_table (foods : FoodVector) (W : nat) (K : table) : table :=
  fold_left (fill_row foods W) (seq 0 (S (length foods))) K.

(** [K(n + 1, std::vector<double>(W + 1))]: value-initialised to [0]. *)
Definition new_table (n W : nat) : table := replicate (S n) (replicate (S W) 0%Q).

Definition build_table (foods : FoodVector) (W : nat) : table :=
  fill_table foods W (new_table (length foods) W).

(** One iteration of the reconstruction loop at row [i], on the pair
    [(best, w)]; [w -= weight] converts the double [w - weight] back to
    [int]. *)
Definition walk_step (foods : FoodVector) (K : table)
    (st : FoodVector * Z) (i : nat) : FoodVector * Z :=
  let '(best, w) := st in
  if Qeq_bool (K_get K i (Z.to_nat w)) (K_get K (i - 1) (Z.to_nat w))
  then (best, w)
  else
    match foods !! (i - 1)%nat with
    | Some f => (best ++ [f], Qtrunc (inject_Z w - weight f))
    | None => (best, w)
    end.

(** [for (int i = n; i > 0; i--)]. *)
Definition walk (foods : FoodVector) (K : table) (W : Z) : FoodVector * Z :=
  fold_left (walk_step foods K) (rev (seq 1 (length foods))) ([], W).

(** A negative size ([W < -1]) makes the vector's constructor throw
    [std::length_error]; with [W = -1] the rows are empty and the first read
    of the reconstruction is outside them.  The table is taken to fit in
    memory and [W + 1] in an [int]: bounding [W] is the caller's business. *)
Definition dynamic_max_calories (foods : FoodVector) (total_weight : Z)
  : outcome FoodVector :=
  let W := total_weight in
  if W <? -1 then Aborted
  else if W =? -1 then
    match foods with [] => Returned [] | _ => Undefined end
  else
    let K := build_table foods (Z.to_nat W) in
    Returned (fst (walk foods K W)).

(** ** Catalog loader: [load_food_database] *)

(** The constructor of [FoodItem]: its two assertions, in order, then the
    item. *)
Definition new_FoodItem (description : string) (weight_ounces calories : Q)
  : outcome FoodItem :=
  if (description =? "")%string then Aborted
  else if Qlt_bool 0 weight_ounces
       then Returned (mkFoodItem description weight_ounces calories)
       else Aborted.

(** [for (std::string piece; std::getline(is, piece, delim); )] on a stream
    holding [s]: the pieces read.  A call that meets the delimiter yields the
    characters before it (possibly none); a call that meets the end of the
    stream yields the characters read if there are any and fails otherwise,
    which ends the loop. *)
Fixpoint getline_from (delim : ascii) (s : string) (piece : string) : list string :=
  match s with
  | EmptyString => match piece with EmptyString => [] | _ => [piece] end
  | String c s' =>
      if Ascii.eqb c delim
      then piece :: getline_from delim s' EmptyString
      else getline_from delim s' (String.append piece (String c EmptyString))
  end.

Definition getline_all (delim : ascii) (s : string) : list string :=
  getline_from delim s EmptyString.

Definition newline_char : ascii :=
  Ascii.Ascii false true false true false false false false.

(** [operator<<] on a [size_t]. *)
Definition show_size (n : nat) : string := NilZero.string_of_uint (Nat.to_uint n).

(** The characters [operator>>] skips before it reads: [isspace] in the
    classic locale. *)
Definition is_space (c : ascii) : bool :=
  let n := nat_of_ascii c in
  ((9 <=? n)%nat && (n <=? 13)%nat) || (n =? 32)%nat.

Fixpoint blank (s : string) : bool :=
  match s with
  | EmptyString => true
  | String c s' => is_space c && blank s'
  end.

(** The lambda [parse_dbl], called on a field and on a double that holds
    [output]: a fresh [std::stringstream] is never in a failed state, so it
    always answers [true].  On a field that is empty or all white space
    [ss >> output] meets the end of the stream before it reads and leaves
    [output] as it is; otherwise it stores what it reads, [strtod field]
    ([0] when the characters are no number). *)
Definition parse_dbl (strtod : string -> Q) (field : string) (output : Q) : bool * Q :=
  (true, if blank field then output else strtod field).

(** The two lines written for a row that does not have three fields. *)
Definition invalid_field_count (line_number n_fields : nat) (line : string)
  : list string :=
  [String.append "Failed to load food database: Invalid field count at line "
     (String.append (show_size line_number)
        (String.append "; Want 3 but got " (show_size n_fields)));
   String.append "Line: " line].

(** The loop over the lines of the file, entered with [line_number] lines
    read and [result] pushed so far.  [weight_ounces] and [calories] are
    declared in the loop body without a value: [uninit line_number] is what
    the two doubles hold when the row of that line number declares them
    (with the usual compilers, what the previous row left there).  The pair
    returned is the text written to [std::cout], line by line, and how the
    call ends: [Returned None] is [nullptr]. *)
Fixpoint load_lines (strtod : string -> Q) (uninit : nat -> Q * Q)
    (lines : list string) (line_number : nat) (result : FoodVector)
  : list string * outcome (option FoodVector) :=
  match lines with
  | [] => ([], Returned (Some result))
  | line :: rest =>
      let line_number := S line_number in
      if Nat.eqb line_number 1
      then load_lines strtod uninit rest line_number result
      else
        let fields := getline_all "^" line in
        match fields with
        | [descr_field; weight_ounces_field; calories_field] =>
            let '(ok_w, weight_ounces) :=
              parse_dbl strtod weight_ounces_field (fst (uninit line_number)) in
            let '(ok_c, calories) :=
              parse_dbl strtod calories_field (snd (uninit line_number)) in
            if ok_w && ok_c
            then
              match new_FoodItem descr_field weight_ounces calories with
              | Returned item =>
                  load_lines strtod uninit rest line_number (result ++ [item])
              | _ => ([], Aborted)
              end
            else load_lines strtod uninit rest line_number result
        | _ =>
            (invalid_field_count line_number (length fields) line, Returned None)
        end
  end.

(** [file] is what opening [path] gives: [None] when the stream cannot be
    opened, the content of the file otherwise. *)
Definition load_food_database (file : option string) (strtod : string -> Q)
    (uninit : nat -> Q * Q) (path : string)
  : list string * outcome (option FoodVector) :=
  match file with
  | None =>
      ([String.append "Failed to load food database; cannot open file: " path],
       Returned None)
  | Some content => load_lines strtod uninit (getline_all newline_char content) 0 []
  end.

(** ** Definitions used to state the properties *)

(** Sum of weights and of calories, as the mathematical sums. *)
Fixpoint wsum (l : FoodVector) : Q :=
  match l with
  | [] => 0%Q
  | f :: l' => (weight f + wsum l')%Q
  end.

Fixpoint csum (l : FoodVector) : Q :=
  match l with
  | [] => 0%Q
  | f :: l' => (foodCalories f + csum l')%Q
  end.

(** The subset of [l] picked by a membership vector, in the order of [l]. *)
Fixpoint select {A : Type} (bs : list bool) (l : list A) : list A :=
  match bs, l with
  | b :: bs', x :: l' => if b then x :: select bs' l' else select bs' l'
  | _, _ => []
  end.

(** The bitmask of a membership vector, bit [j] for position [j]. *)
Fixpoint mask_of (bs : list bool) : Z :=
  match bs with
  | [] => 0
  | b :: bs' => 2 * mask_of bs' + Z.b2z b
  end.

(** The membership vector the inner loop reads off the mask [i]. *)
Definition bits_of (p : platform) (n : nat) (i : Z) : list bool :=
  map (fun j => Z.land (shr p i (Z.of_nat j)) 1 =? 1) (seq 0 n).

Definition feasible (capacity : Q) (c : FoodVector) : Prop :=
  (total_weight_of c <= capacity)%Q.

Definition nonneg_calories (foods : FoodVector) : Prop :=
  Forall (fun f => (0 <= foodCalories f)%Q) foods.

Definition positive_weights (foods : FoodVector) : Prop :=
  Forall (fun f => (0 < weight f)%Q) foods.

Definition integral_weights (foods : FoodVector) : Prop :=
  Forall (fun f => (inject_Z (Qfloor (weight f)) == weight f)%Q) foods.

(** An item the filter keeps: calories strictly positive and within the
    inclusive range. *)
Definition calorie_range (min_calories max_calories : Q) (f : FoodItem) : Prop :=
  (0 < foodCalories f)%Q
  /\ (min_calories <= foodCalories f)%Q
  /\ (foodCalories f <= max_calories)%Q.

(** The 0/1-knapsack recurrence of the specification, by recursion on the
    number of items considered; the column read when the item is taken is
    the truncated difference [w - weight], as the table's index is. *)
Fixpoint Kfun (foods : FoodVector) (i w : nat) : Q :=
  match i with
  | O => 0%Q
  | S i' =>
      if Nat.eqb w 0 then 0%Q
      else
        match foods !! i' with
        | Some f =>
            if Qle_bool (weight f) (inject_Z (Z.of_nat w))
            then
              std_max
                (foodCalories f
                 + Kfun foods i' (Z.to_nat (Qtrunc (inject_Z (Z.of_nat w) - weight f))))%Q
                (Kfun foods i' w)
            else Kfun foods i' w
        | None => 0%Q
        end
  end.

(** The backward walk of the specification from [(i, w)]: the items chosen,
    in the order the walk meets them. *)
Fixpoint walk_from (foods : FoodVector) (K : table) (i : nat) (w : Z) : FoodVector :=
  match i with
  | O => []
  | S i' =>
      if Qeq_bool (K_get K i (Z.to_nat w)) (K_get K i' (Z.to_nat w))
      then walk_from foods K i' w
      else
        match foods !! i' with
        | Some f => f :: walk_from foods K i' (Qtrunc (inject_Z w - weight f))
        | None => walk_from foods K i' w
        end
  end.

(** A table of [n + 1] rows of [W + 1] columns. *)
Definition table_dims (n W : nat) (K : table) : Prop :=
  length K = S n /\ Forall (fun row => length row = S W) K.

(** The column read for "item taken" at column [w]. *)
Definition left_column (w : Z) (f : FoodItem) : Z := Qtrunc (inject_Z w - weight f).

(** The table while it is being filled: rows below [r] and the first [c]
    columns of row [r] hold the recurrence's values. *)
Definition filled (foods : FoodVector) (W : nat) (K : table) (r c : nat) : Prop :=
  table_dims (length foods) W K
  /\ forall i w, (w <= W)%nat -> (i < r \/ (i = r /\ w < c))%nat ->
       K_get K i w = Kfun foods i w.

(** A table that holds the recurrence on rows [0..n] and columns [0..W]. *)
Definition holds_recurrence (foods : FoodVector) (W : nat) (K : table) : Prop :=
  forall i w, (i <= length foods)%nat -> (w <= W)%nat ->
    K_get K i w = Kfun foods i w.

(** The lines [rows] with their line numbers, the first being line [k]. *)
Definition rows_from (k : nat) (rows : list string) : list (nat * string) :=
  combine (seq k (length rows)) rows.

(** The weight and the calories the loader reads on a row of three fields. *)
Definition weight_read (strtod : string -> Q) (uninit : nat -> Q * Q)
    (k : nat) (field : string) : Q :=
  snd (parse_dbl strtod field (fst (uninit k))).

Definition calories_read (strtod : string -> Q) (uninit : nat -> Q * Q)
    (k : nat) (field : string) : Q :=
  snd (parse_dbl strtod field (snd (uninit k))).

(** A numbered data row the loader accepts: three fields, a non-empty
    description and a weight that reads as strictly positive. *)
Definition good_row (strtod : string -> Q) (uninit : nat -> Q * Q)
    (row : nat * string) : Prop :=
  exists d w c, getline_all "^" (snd row) = [d; w; c]
    /\ d <> EmptyString /\ (0 < weight_read strtod uninit (fst row) w)%Q.

(** The item a numbered data row stands for. *)
Definition item_of_row (strtod : string -> Q) (uninit : nat -> Q * Q)
    (row : nat * string) : FoodItem :=
  match getline_all "^" (snd row) with
  | [d; w; c] =>
      mkFoodItem d (weight_read strtod uninit (fst row) w)
        (calories_read strtod uninit (fst row) c)
  | _ => mkFoodItem EmptyString 0 0
  end.

(** Doubles that hold [0] before they are read. *)
Definition zeroed (k : nat) : Q * Q := (0%Q, 0%Q).

(** The item with its weight rounded up to the next integer. *)
Definition round_up (f : FoodItem) : FoodItem :=
  mkFoodItem (description f) (inject_Z (Qceiling (weight f))) (foodCalories f).

Definition positive_calories (foods : FoodVector) : Prop :=
  Forall (fun f => (0 < foodCalories f)%Q) foods.

(** Calories that are whole numbers and add up to less than [2^53]: a
    binary64 [double] holds each of their partial sums without rounding. *)
Definition exact_calories (foods : FoodVector) : Prop :=
  Forall (fun f => (inject_Z (Qfloor (foodCalories f)) == foodCalories f)%Q) foods
  /\ (csum foods < inject_Z (2 ^ 53))%Q.

(** Weights that are multiples of [2^-20]: for a column [w < 2^31] and such
    a weight [<= w], a binary64 [double] holds [w - weight] without
    rounding. *)
Definition dyadic_weights (foods : FoodVector) : Prop :=
  Forall (fun f => (inject_Z (Qfloor (weight f * inject_Z (2 ^ 20)))
                    == weight f * inject_Z (2 ^ 20))%Q) foods.

(** ** The scenario of the unit tests *)

Definition corn : FoodItem := mkFoodItem "test whole corn" 10 20.
Definition pasta : FoodItem := mkFoodItem "test pasta" 4 5.
Definition trivial_foods : FoodVector := [corn; pasta].

(** A reader for the examples: the value of the leading decimal digits of
    a field, [0] when there are none. *)
Fixpoint digits_from (s : string) (acc : Z) : Z :=
  match s with
  | EmptyString => acc
  | String c s' =>
      let d := Z.of_nat (nat_of_ascii c) - 48 in
      if (0 <=? d) && (d <=? 9) then digits_from s' (10 * acc + d) else acc
  end.

Definition read_digits (field : string) : Q := inject_Z (digits_from field 0).

(** The text of a file with the given lines, each ended by a newline. *)
Fixpoint unlines (lines : list string) : string :=
  match lines with
  | [] => EmptyString
  | line :: rest =>
      String.append line (String newline_char (unlines rest))
  end.

Definition sample_catalog : string :=
  unlines ["description^weight^calories"; "test whole corn^10^20"; "test pasta^4^5"]%string.

(** Items for the examples below. *)
Definition snack : FoodItem := mkFoodItem "snack" 1 150.
Definition water : FoodItem := mkFoodItem "water" 8 0.
Definition feast : FoodItem := mkFoodItem "feast" 30 900.
Definition bread : FoodItem := mkFoodItem "bread" 5 300.
Definition crumb : FoodItem := mkFoodItem "crumb" 4 5.
Definition half_loaf : FoodItem := mkFoodItem "half loaf" (5 # 2) 10.
Definition garnish : FoodItem := mkFoodItem "garnish" 1 0.
Definition spoiled : FoodItem := mkFoodItem "spoiled" 1 (-5).

(** ** The solvers on binary64 doubles

    [sum_food_vector] and the two solvers once more, with [double] as the
    kernel's binary64 floats instead of the rationals.  The code is the
    same, operation for operation; it is run at the end of the file on
    inputs where a sum of calories or a difference of weights is rounded. *)
Module Binary64.

Abbreviation double := PrimFloat.float (only parsing).

Record FoodItem : Type := mkFoodItem {
  description : string;
  weight : double;
  foodCalories : double
}.

(** The conversion [int -> double], exact on an [int]. *)
Definition of_int (z : Z) : double := PrimFloat.of_uint63 (Uint63Axioms.of_Z z).

(** The double a decimal literal of value [num / den] reads as: the
    nearest one, which the correctly rounded quotient of two exact doubles
    is. *)
Definition ratio (num den : Z) : double := PrimFloat.div (of_int num) (of_int den).

(** The conversion [double -> int] of a finite double in range: truncation
    toward zero. *)
Definition to_int (x : double) : Z :=
  match FloatOps.Prim2SF x with
  | SpecFloat.S754_finite s m e =>
      let a := if 0 <=? e then Z.shiftl (Z.pos m) e else Z.shiftr (Z.pos m) (- e) in
      if s then - a else a
  | _ => 0
  end.

Definition sum_food_vector (foods : list FoodItem) : double * double :=
  fold_left
    (fun acc food =>
       (PrimFloat.add (fst acc) (weight food),
        PrimFloat.add (snd acc) (foodCalories food)))
    foods (PrimFloat.zero, PrimFloat.zero).

Definition total_weight_of (foods : list FoodItem) : double :=
  fst (sum_food_vector foods).
Definition total_calories_of (foods : list FoodItem) : double :=
  snd (sum_food_vector foods).

Definition candidate_of (p : platform) (foods : list FoodItem) (i : Z) : list FoodItem :=
  fold_left
    (fun candidate j =>
       match foods !! j with
       | Some f =>
           if Z.land (shr p i (Z.of_nat j)) 1 =? 1 then candidate ++ [f] else candidate
       | None => candidate
       end)
    (seq 0 (length foods)) [].

Definition keep_better (total_weight : double) (best candidate : list FoodItem)
  : list FoodItem :=
  let '(candidateWeight, candidateCalories) := sum_food_vector candidate in
  let '(bestWeight, bestCalories) := sum_food_vector best in
  if PrimFloat.leb candidateWeight total_weight
  then
    if (match best with [] => true | _ => false end)
       || PrimFloat.ltb bestCalories candidateCalories
    then candidate
    else best
  else best.

Definition exhaustive_max_calories (p : platform) (foods : list FoodItem)
    (total_weight : double) : outcome (list FoodItem) :=
  let n := Z.of_nat (length foods) in
  if 64 <=? n
  then Aborted
  else
    Returned
      (fold_left (fun best i => keep_better total_weight best (candidate_of p foods i))
         (masks (double_to_int p (2 ^ n))) []).

Definition K_get (K : list (list double)) (i w : nat) : double :=
  match K !! i with
  | Some row => match row !! w with Some v => v | None => PrimFloat.zero end
  | None => PrimFloat.zero
  end.

Definition K_set (K : list (list double)) (i w : nat) (v : double)
  : list (list double) :=
  match K !! i with
  | Some row => <[i := <[w := v]> row]> K
  | None => K
  end.

Definition std_max (a b : double) : double := if PrimFloat.ltb a b then b else a.

(** The column [w - weight] converted to an index. *)
Definition left_column (w : Z) (f : FoodItem) : Z :=
  to_int (PrimFloat.sub (of_int w) (weight f)).

Definition cell (foods : list FoodItem) (K : list (list double)) (i w : nat) : double :=
  if (Nat.eqb i 0 || Nat.eqb w 0)%bool
  then PrimFloat.zero
  else
    match foods !! (i - 1)%nat with
    | Some f =>
        if PrimFloat.leb (weight f) (of_int (Z.of_nat w))
        then
          std_max
            (PrimFloat.add (foodCalories f)
               (K_get K (i - 1) (Z.to_nat (left_column (Z.of_nat w) f))))
            (K_get K (i - 1) w)
        else K_get K (i - 1) w
    | None => PrimFloat.zero
    end.

Definition build_table (foods : list FoodItem) (W : nat) : list (list double) :=
  fold_left
    (fun K i => fold_left (fun K w => K_set K i w (cell foods K i w)) (seq 0 (S W)) K)
    (seq 0 (S (length foods)))
    (replicate (S (length foods)) (replicate (S W) PrimFloat.zero)).

Definition walk_step (foods : list FoodItem) (K : list (list double))
    (st : list FoodItem * Z) (i : nat) : list FoodItem * Z :=
  let '(best, w) := st in
  if PrimFloat.eqb (K_get K i (Z.to_nat w)) (K_get K (i - 1) (Z.to_nat w))
  then (best, w)
  else
    match foods !! (i - 1)%nat with
    | Some f => (best ++ [f], left_column w f)
    | None => (best, w)
    end.

Definition dynamic_max_calories (foods : list FoodItem) (total_weight : Z)
  : outcome (list FoodItem) :=
  let W := total_weight in
  if W <? -1 then Aborted
  else if W =? -1 then
    match foods with [] => Returned [] | _ => Undefined end
  else
    let K := build_table foods (Z.to_nat W) in
    Returned (fst (fold_left (walk_step foods K) (rev (seq 1 (length foods))) ([], W))).

(** The value of the last cell of the table, [K[n][W]]. *)
Definition last_cell (foods : list FoodItem) (W : Z) : double :=
  K_get (build_table foods (Z.to_nat W)) (length foods) (Z.to_nat W).

(** Items for the examples: weight and calories as quotients of integers. *)
Definition item (d : string) (w c : Z * Z) : FoodItem :=
  mkFoodItem d (ratio (fst w) (snd w)) (ratio (fst c) (snd c)).

(** Weights 1, 1, 1; calories 0.1, 0.2, 0.3. *)
Definition tenths : list FoodItem :=
  [item "a" (1, 1) (1, 10); item "b" (1, 1) (2, 10); item "c" (1, 1) (3, 10)].

(** Weights 2, 2, 3, 1; calories 0.5, 0.3, 0.8, 0.9. *)
Definition pantry : list FoodItem :=
  [item "a" (2, 1) (5, 10); item "b" (2, 1) (3, 10);
   item "c" (3, 1) (8, 10); item "d" (1, 1) (9, 10)].

(** Weights 3, 2, 1; calories 0.6, 0.4, 1.3; and one more item. *)
Definition shelf : list FoodItem :=
  [item "a" (3, 1) (6, 10); item "b" (2, 1) (4, 10); item "c" (1, 1) (13, 10)].
Definition extra : FoodItem := item "d" (3, 1) (6, 10).

(** Weights 1, 1; calories [10^16] and 1. *)
Definition banquet : list FoodItem :=
  [item "a" (1, 1) (10 ^ 16, 1); item "b" (1, 1) (1, 1)].

(** Two items of weight [10^-17]. *)
Definition specks : list FoodItem :=
  [item "a" (1, 10 ^ 17) (1, 1); item "b" (1, 10 ^ 17) (1, 1)].

End Binary64.

Example exhaustive_trivial_cases (p : platform) :
  exhaustive_max_calories p trivial_foods 3 = Returned []
  /\ exhaustive_max_calories p trivial_foods 10 = Returned [corn]
  /\ exhaustive_max_calories p trivial_foods 9 = Returned [pasta]
  /\ exhaustive_max_calories p trivial_foods 14 = Returned [corn; pasta].
Proof. repeat split; reflexivity. Qed.

Example dynamic_trivial_cases :
  dynamic_max_calories trivial_foods 3 = Returned []
  /\ dynamic_max_calories trivial_foods 10 = Returned [corn]
  /\ dynamic_max_calories trivial_foods 9 = Returned [pasta]
  /\ dynamic_max_calories trivial_foods 14 = Returned [pasta; corn].
Proof. repeat split; vm_compute; reflexivity. Qed.

(** ** The aggregator *)

Lemma sum_food_vector_acc (l : FoodVector) (a b : Q) :
  (fst (fold_left
          (fun acc food => ((fst acc + weight food)%Q, (snd acc + foodCalories food)%Q))
          l (a, b)) == a + wsum l)%Q
  /\ (snd (fold_left
          (fun acc food => ((fst acc + weight food)%Q, (snd acc + foodCalories food)%Q))
          l (a, b)) == b + csum l)%Q.
Proof.
  revert a b. induction l as [|f l IH]; intros a b; cbn [fold_left wsum csum fst snd].
  - split; lra.
  - destruct (IH (a + weight f)%Q (b + foodCalories f)%Q) as [Hw Hc].
    split; [rewrite Hw | rewrite Hc]; lra.
Qed.

Lemma total_weight_wsum (l : FoodVector) : (total_weight_of l == wsum l)%Q.
Proof.
  unfold total_weight_of, sum_food_vector.
  destruct (sum_food_vector_acc l 0 0) as [H _]. rewrite H. lra.
Qed.

Lemma total_calories_csum (l : FoodVector) : (total_calories_of l == csum l)%Q.
Proof.
  unfold total_calories_of, sum_food_vector.
  destruct (sum_food_vector_acc l 0 0) as [_ H]. rewrite H. lra.
Qed.

Lemma sum_food_vector_pair (l : FoodVector) :
  sum_food_vector l = (total_weight_of l, total_calories_of l).
Proof. unfold total_weight_of, total_calories_of. now destruct (sum_food_vector l). Qed.

Lemma wsum_app (l k : FoodVector) : (wsum (l ++ k) == wsum l + wsum k)%Q.
Proof. induction l as [|f l IH]; cbn [app wsum csum]; [|rewrite IH]; lra. Qed.

Lemma csum_app (l k : FoodVector) : (csum (l ++ k) == csum l + csum k)%Q.
Proof. induction l as [|f l IH]; cbn [app wsum csum]; [|rewrite IH]; lra. Qed.

Lemma wsum_rev (l : FoodVector) : (wsum (rev l) == wsum l)%Q.
Proof.
  induction l as [|f l IH]; cbn [rev wsum]; [|rewrite wsum_app, IH; cbn [wsum]]; lra.
Qed.

Lemma csum_rev (l : FoodVector) : (csum (rev l) == csum l)%Q.
Proof.
  induction l as [|f l IH]; cbn [rev csum]; [|rewrite csum_app, IH; cbn [csum]]; lra.
Qed.

Lemma Qlt_bool_iff (a b : Q) : Qlt_bool a b = true <-> (a < b)%Q.
Proof.
  unfold Qlt_bool. rewrite negb_true_iff, <- not_true_iff_false, Qle_bool_iff.
  split; intros H; lra.
Qed.

Lemma Qlt_bool_false_iff (a b : Q) : Qlt_bool a b = false <-> (b <= a)%Q.
Proof.
  unfold Qlt_bool. rewrite negb_false_iff, Qle_bool_iff. tauto.
Qed.

(** ** The filter stage *)

Lemma calories_match_iff (lo hi : Q) (f : FoodItem) :
  calories_match lo hi f = true <-> calorie_range lo hi f.
Proof.
  unfold calories_match, calorie_range.
  rewrite !andb_true_iff, Qlt_bool_iff, !Qle_bool_iff. tauto.
Qed.

(** The loop, started on [acc], appends the first matching items of the rest
    of the source until [acc] holds [total_size] items. *)
Lemma filter_loop (lo hi : Q) (total_size : Z) (source acc : FoodVector) :
  Z.of_nat (length acc) <= total_size ->
  fold_left (filter_step lo hi total_size) source acc
  = acc ++ take (Z.to_nat total_size - length acc)
             (List.filter (calories_match lo hi) source).
Proof.
  revert acc. induction source as [|f source IH]; intros acc Hacc.
  - cbn. now rewrite take_nil, app_nil_r.
  - cbn [fold_left List.filter]. unfold filter_step at 2.
    destruct (calories_match lo hi f) eqn:Hm; cbn [andb].
    + destruct (Z.ltb_spec (Z.of_nat (length acc)) total_size) as [Hlt|Hge].
      * rewrite IH by (rewrite length_app; cbn; lia).
        rewrite length_app. cbn [length].
        replace (Z.to_nat total_size - length acc)%nat
          with (S (Z.to_nat total_size - (length acc + 1)))%nat by lia.
        cbn [take]. now rewrite <- app_assoc.
      * rewrite IH by lia.
        replace (Z.to_nat total_size - length acc)%nat with 0%nat by lia.
        reflexivity.
    + now apply IH.
Qed.

(** C6: for a positive limit, [filter_food_vector] returns a new collection
    holding exactly the first [min(limit, number of matching items)] items
    of the source whose calories are strictly positive and within
    [[min_calories, max_calories]], in source order; the result for a limit
    [k <= limit] is the first [k] entries of the result for [limit]. *)
Theorem filter_food_vector_first_matching
    (source : FoodVector) (min_calories max_calories : Q) (limit : Z) :
  0 < limit ->
  let matching := List.filter (calories_match min_calories max_calories) source in
  (forall f, calories_match min_calories max_calories f = true
             <-> calorie_range min_calories max_calories f)
  /\ filter_food_vector source min_calories max_calories limit
     = ([], Some (take (Z.to_nat limit) matching))
  /\ length (take (Z.to_nat limit) matching)
     = Nat.min (Z.to_nat limit) (length matching)
  /\ forall k, 0 < k <= limit ->
       snd (filter_food_vector source min_calories max_calories k)
       = Some (take (Z.to_nat k) (take (Z.to_nat limit) matching)).
Proof.
  intros Hpos matching.
  assert (Hrun : forall k, 0 < k ->
            filter_food_vector source min_calories max_calories k
            = ([], Some (take (Z.to_nat k) matching))).
  { intros k Hk. unfold filter_food_vector.
    destruct (Z.leb_spec k 0) as [?|_]; [lia|].
    rewrite filter_loop by (cbn; lia). cbn [length app].
    now rewrite Nat.sub_0_r. }
  split; [apply calories_match_iff|].
  split; [now apply Hrun|].
  split; [apply length_take|].
  intros k [Hk Hle]. rewrite Hrun by exact Hk. cbn [snd].
  rewrite take_take. f_equal. f_equal. lia.
Qed.

Lemma filter_food_vector_first_matching_witness :
  filter_food_vector [snack; water; feast; bread; snack] 100 500 2
  = ([], Some [snack; bread]).
Proof.
  exact (proj1 (proj2
    (filter_food_vector_first_matching [snack; water; feast; bread; snack] 100 500 2
       eq_refl))).
Defined.

(** C7: a non-positive limit is reported on the output stream and yields the
    null pointer, whatever the source and the bounds; a positive limit yields
    a collection (possibly empty) and writes nothing. *)
Theorem filter_food_vector_limit
    (source : FoodVector) (min_calories max_calories : Q) (limit : Z) :
  (limit <= 0 ->
   filter_food_vector source min_calories max_calories limit
   = ([invalid_total_size], None))
  /\ (0 < limit ->
      exists out : FoodVector,
        filter_food_vector source min_calories max_calories limit = ([], Some out)).
Proof.
  unfold filter_food_vector. split; intros H.
  - destruct (Z.leb_spec limit 0); [reflexivity | lia].
  - destruct (Z.leb_spec limit 0); [lia | eauto].
Qed.

Lemma filter_food_vector_limit_witness :
  filter_food_vector [snack; water] 100 500 0 = ([invalid_total_size], None)
  /\ filter_food_vector [snack; water] 100 500 (-3) = ([invalid_total_size], None)
  /\ exists out : FoodVector,
       filter_food_vector [water] 100 500 1 = ([], Some out).
Proof.
  split; [|split].
  - apply (filter_food_vector_limit [snack; water] 100 500 0). lia.
  - apply (filter_food_vector_limit [snack; water] 100 500 (-3)). lia.
  - apply (filter_food_vector_limit [water] 100 500 1). lia.
Defined.

(** ** The exhaustive solver: candidates *)

Lemma select_length_le {A : Type} (bs : list bool) (l : list A) :
  (length (select bs l) <= length l)%nat.
Proof.
  revert l. induction bs as [|b bs IH]; intros [|x l]; cbn; try lia.
  specialize (IH l). destruct b; cbn; lia.
Qed.

Lemma select_snoc {A : Type} (bs : list bool) (l : list A) (b : bool) (x : A) :
  length bs = length l ->
  select (bs ++ [b]) (l ++ [x]) = select bs l ++ (if b then [x] else []).
Proof.
  revert l. induction bs as [|c bs IH]; intros [|y l] Hlen; try discriminate.
  - now destruct b.
  - cbn in Hlen. cbn [app select]. rewrite IH by lia. now destruct c.
Qed.

Lemma select_all_false {A : Type} (n : nat) (l : list A) :
  select (replicate n false) l = [].
Proof. revert l. induction n as [|n IH]; intros [|x l]; cbn; auto. Qed.

Lemma select_nonempty {A : Type} (bs : list bool) (l : list A) :
  length bs = length l -> In true bs -> select bs l <> [].
Proof.
  revert l. induction bs as [|b bs IH]; intros [|x l] Hlen Hin; try discriminate.
  - destruct Hin.
  - cbn in Hlen. cbn [select]. destruct b; [discriminate|].
    destruct Hin as [?|Hin]; [discriminate|]. apply IH; [lia | exact Hin].
Qed.

Lemma wsum_select_nonneg (bs : list bool) (foods : FoodVector) :
  Forall (fun f => (0 <= weight f)%Q) foods -> (0 <= wsum (select bs foods))%Q.
Proof.
  intros H. revert bs. induction H as [|f foods Hf _ IH]; intros [|b bs]; cbn; try lra.
  specialize (IH bs). destruct b; cbn; lra.
Qed.

Lemma wsum_select_pos (bs : list bool) (foods : FoodVector) :
  positive_weights foods -> select bs foods <> [] -> (0 < wsum (select bs foods))%Q.
Proof.
  intros H. revert bs. induction H as [|f foods Hf Hfs IH]; intros [|b bs] Hne;
    cbn in *; try congruence.
  destruct b; cbn.
  - assert (0 <= wsum (select bs foods))%Q; [|lra].
    apply wsum_select_nonneg. eapply List.Forall_impl; [|exact Hfs].
    cbn. intros; lra.
  - now apply IH.
Qed.

Lemma csum_select_nonneg (bs : list bool) (foods : FoodVector) :
  nonneg_calories foods -> (0 <= csum (select bs foods))%Q.
Proof.
  intros H. revert bs. induction H as [|f foods Hf _ IH]; intros [|b bs]; cbn; try lra.
  specialize (IH bs). destruct b; cbn; lra.
Qed.

Lemma positive_weights_nonneg (foods : FoodVector) :
  positive_weights foods -> Forall (fun f => (0 <= weight f)%Q) foods.
Proof. apply List.Forall_impl. intros f Hf. lra. Qed.

(** The inner loop started at index [length pre] with [acc] already pushed. *)
Lemma candidate_loop (p : platform) (i : Z) (rest pre acc : FoodVector) :
  fold_left
    (fun candidate j =>
       match (pre ++ rest) !! j with
       | Some f =>
           if Z.land (shr p i (Z.of_nat j)) 1 =? 1 then candidate ++ [f] else candidate
       | None => candidate
       end)
    (seq (length pre) (length rest)) acc
  = acc ++ select
             (map (fun j => Z.land (shr p i (Z.of_nat j)) 1 =? 1)
                (seq (length pre) (length rest)))
             rest.
Proof.
  revert pre acc. induction rest as [|f rest IH]; intros pre acc.
  - cbn. now rewrite app_nil_r.
  - cbn [length seq fold_left map select].
    rewrite list_lookup_middle by reflexivity.
    specialize (IH (pre ++ [f])).
    rewrite length_app, <- app_assoc in IH. cbn [length app] in IH.
    replace (length pre + 1)%nat with (S (length pre)) in IH by lia.
    rewrite IH.
    destruct (Z.land (shr p i (Z.of_nat (length pre))) 1 =? 1);
      [now rewrite <- app_assoc | reflexivity].
Qed.

(** Every candidate is the subset of the input its mask's bits pick, on any
    platform. *)
Lemma candidate_of_select (p : platform) (foods : FoodVector) (i : Z) :
  candidate_of p foods i = select (bits_of p (length foods) i) foods.
Proof.
  unfold candidate_of, bits_of.
  exact (candidate_loop p i foods [] []).
Qed.

Lemma bits_of_length (p : platform) (n : nat) (i : Z) : length (bits_of p n i) = n.
Proof. unfold bits_of. now rewrite length_map, length_seq. Qed.

Lemma land_1_odd (x : Z) : (Z.land x 1 =? 1) = Z.odd x.
Proof.
  change 1 with (Z.ones 1) at 1. rewrite Z.land_ones by lia.
  change (2 ^ 1) with 2. rewrite <- Z.bit0_mod, Z.bit0_odd.
  now destruct (Z.odd x).
Qed.

(** Below 32 items the shift counts are in range and the test reads bit [j]
    of the mask. *)
Lemma bits_of_testbit (p : platform) (n : nat) (i : Z) :
  (n <= 32)%nat ->
  bits_of p n i = map (fun j => Z.testbit i (Z.of_nat j)) (seq 0 n).
Proof.
  intros Hn. unfold bits_of. apply map_ext_in. intros j Hj.
  apply in_seq in Hj. unfold shr.
  destruct (Z.ltb_spec (Z.of_nat j) 32); [|lia].
  now rewrite land_1_odd, Z.testbit_odd.
Qed.

Lemma mask_of_range (bs : list bool) : 0 <= mask_of bs < 2 ^ Z.of_nat (length bs).
Proof.
  induction bs as [|b bs IH]; cbn [mask_of length].
  - cbn. lia.
  - rewrite Nat2Z.inj_succ, Z.pow_succ_r by lia. destruct b; cbn [Z.b2z]; lia.
Qed.

Lemma mask_of_bits (bs : list bool) :
  map (fun j => Z.testbit (mask_of bs) (Z.of_nat j)) (seq 0 (length bs)) = bs.
Proof.
  induction bs as [|b bs IH]; [reflexivity|].
  cbn [length seq map mask_of]. f_equal.
  - apply Z.testbit_0_r.
  - rewrite <- seq_shift, map_map. rewrite <- IH at 2.
    apply map_ext. intros j. rewrite Nat2Z.inj_succ.
    apply Z.testbit_succ_r. lia.
Qed.

(** A subset of at most 32 items is the candidate of its mask. *)
Lemma candidate_of_mask_of (p : platform) (foods : FoodVector) (bs : list bool) :
  (length foods <= 32)%nat -> length bs = length foods ->
  candidate_of p foods (mask_of bs) = select bs foods.
Proof.
  intros Hn Hlen.
  rewrite candidate_of_select, bits_of_testbit by exact Hn.
  now rewrite <- Hlen, mask_of_bits.
Qed.

(** A non-zero mask below [2^n] has one of its low [n] bits set, so its
    candidate is not empty. *)
Lemma candidate_of_nonempty (p : platform) (foods : FoodVector) (i : Z) :
  (length foods <= 32)%nat -> 0 < i < 2 ^ Z.of_nat (length foods) ->
  candidate_of p foods i <> [].
Proof.
  intros Hn [Hpos Hlt].
  rewrite candidate_of_select. apply select_nonempty.
  - apply bits_of_length.
  - rewrite bits_of_testbit by exact Hn.
    apply in_map_iff. exists (Z.to_nat (Z.log2 i)).
    pose proof (Z.log2_nonneg i) as Hl.
    apply Z.log2_lt_pow2 in Hlt; [|exact Hpos].
    split.
    + rewrite Z2Nat.id by exact Hl. now apply Z.bit_log2.
    + apply in_seq. lia.
Qed.

Lemma candidate_of_zero (p : platform) (foods : FoodVector) :
  (length foods <= 32)%nat -> candidate_of p foods 0 = [].
Proof.
  intros Hn. rewrite candidate_of_select, bits_of_testbit by exact Hn.
  erewrite map_ext; [|intros j; apply Z.testbit_0_l].
  clear Hn. generalize 0%nat.
  induction foods as [|f foods IH]; intros k; [reflexivity|].
  cbn [length seq map select]. apply IH.
Qed.

(** ** The exhaustive solver: the search loop *)

Lemma feasible_wsum (C : Q) (c : FoodVector) : feasible C c <-> (wsum c <= C)%Q.
Proof. unfold feasible. now rewrite total_weight_wsum. Qed.

Lemma keep_better_eq (C : Q) (b c : FoodVector) :
  keep_better C b c
  = if Qle_bool (total_weight_of c) C
       && ((match b with [] => true | _ => false end)
           || Qlt_bool (total_calories_of b) (total_calories_of c))
    then c else b.
Proof.
  unfold keep_better. rewrite !sum_food_vector_pair.
  destruct (Qle_bool (total_weight_of c) C); reflexivity.
Qed.

(** The two ways an iteration ends: the candidate replaces the best when it
    is feasible and the best is empty or has strictly fewer calories;
    otherwise the best stays. *)
Lemma keep_better_cases (C : Q) (b c : FoodVector) :
  (feasible C c /\ (b = [] \/ (csum b < csum c)%Q) /\ keep_better C b c = c)
  \/ (~ (feasible C c /\ (b = [] \/ (csum b < csum c)%Q)) /\ keep_better C b c = b).
Proof.
  rewrite keep_better_eq. unfold feasible.
  destruct (Qle_bool (total_weight_of c) C) eqn:Hw; cbn [andb].
  - apply Qle_bool_iff in Hw.
    destruct b as [|f b]; cbn [orb]; [left; auto|].
    destruct (Qlt_bool (total_calories_of (f :: b)) (total_calories_of c)) eqn:Hc.
    + apply Qlt_bool_iff in Hc. rewrite !total_calories_csum in Hc. left; auto.
    + apply Qlt_bool_false_iff in Hc. rewrite !total_calories_csum in Hc.
      right. split; [|reflexivity]. intros [_ [H|H]]; [discriminate | lra].
  - right. split; [|reflexivity]. intros [H _].
    apply Qle_bool_iff in H. congruence.
Qed.

Lemma fold_left_map_arg {A B C : Type} (f : A -> B -> A) (g : C -> B) (l : list C) (a : A) :
  fold_left f (map g l) a = fold_left (fun a x => f a (g x)) l a.
Proof. revert a. induction l as [|x l IH]; intros a; cbn; [reflexivity | apply IH]. Qed.

Lemma exhaustive_as_fold (p : platform) (foods : FoodVector) (C : Q) :
  (length foods < 64)%nat ->
  exhaustive_max_calories p foods C
  = Returned
      (fold_left (keep_better C)
         (map (candidate_of p foods) (masks (nSquared_of p foods))) []).
Proof.
  intros Hn. unfold exhaustive_max_calories.
  destruct (Z.leb_spec 64 (Z.of_nat (length foods))); [lia|].
  now rewrite fold_left_map_arg.
Qed.

(** The result of the loop is the initial best or a feasible candidate. *)
Lemma search_result_in (C : Q) (cs : list FoodVector) (b : FoodVector) :
  fold_left (keep_better C) cs b = b
  \/ (In (fold_left (keep_better C) cs b) cs
      /\ feasible C (fold_left (keep_better C) cs b)).
Proof.
  revert b. induction cs as [|c cs IH]; intros b; cbn [fold_left]; [now left|].
  destruct (IH (keep_better C b c)) as [Hr|[Hin Hf]].
  - rewrite Hr.
    destruct (keep_better_cases C b c) as [(Hfc & _ & ->)|(_ & ->)];
      [right; split; [now left | exact Hfc] | now left].
  - right. split; [now right | exact Hf].
Qed.

(** When no candidate has negative calories, the calories of the best never
    decrease, and the final best has at least the calories of every feasible
    candidate. *)
Lemma search_dominates (C : Q) (cs : list FoodVector) (b : FoodVector) :
  (forall c, In c cs -> (0 <= csum c)%Q) ->
  (csum b <= csum (fold_left (keep_better C) cs b))%Q
  /\ forall c, In c cs -> feasible C c ->
       (csum c <= csum (fold_left (keep_better C) cs b))%Q.
Proof.
  revert b. induction cs as [|c cs IH]; intros b Hnn; cbn [fold_left].
  - split; [lra | intros c []].
  - assert (Hnn' : forall c', In c' cs -> (0 <= csum c')%Q)
      by (intros; apply Hnn; now right).
    destruct (IH (keep_better C b c) Hnn') as [Hb Hall].
    assert (Hc0 : (0 <= csum c)%Q) by (apply Hnn; now left).
    destruct (keep_better_cases C b c) as [(Hfc & Hrep & Heq)|(Hno & Heq)];
      rewrite Heq in *.
    + assert (csum b <= csum c)%Q by (destruct Hrep as [->|?]; cbn; lra).
      split; [lra|]. intros c' [<-|Hin] Hf; [exact Hb | now apply Hall].
    + split; [exact Hb|]. intros c' [<-|Hin] Hf; [|now apply Hall].
      destruct (Qlt_le_dec (csum b) (csum c)) as [Hlt|Hle]; [|lra].
      exfalso. apply Hno. auto.
Qed.

(** First found wins: started on the empty best over non-empty candidates,
    the loop ends on the empty best when no candidate is feasible, and
    otherwise on the earliest feasible candidate of greatest calories. *)
Lemma search_first_best (C : Q) (cs : list FoodVector) :
  (forall c, In c cs -> c <> []) ->
  let r := fold_left (keep_better C) cs [] in
  (r = [] /\ forall c, In c cs -> ~ feasible C c)
  \/ (exists k : nat,
        cs !! k = Some r /\ feasible C r
        /\ (forall j c, cs !! j = Some c -> feasible C c -> (csum c <= csum r)%Q)
        /\ (forall j c, (j < k)%nat -> cs !! j = Some c -> feasible C c ->
              (csum c < csum r)%Q)).
Proof.
  induction cs as [|c cs IH] using rev_ind; intros Hne r.
  - left. split; [reflexivity | intros c []].
  - subst r. rewrite fold_left_app. cbn [fold_left].
    assert (Hne' : forall c', In c' cs -> c' <> [])
      by (intros c' Hin; apply Hne, in_or_app; now left).
    specialize (IH Hne'). cbn zeta in IH.
    set (r := fold_left (keep_better C) cs []) in *.
    destruct IH as [[Hr Hnone]|(k & Hk & Hfr & Hmax & Hfirst)].
    + rewrite Hr.
      destruct (keep_better_cases C [] c) as [(Hfc & _ & ->)|(Hno & ->)].
      * right. exists (length cs). split; [now apply list_lookup_middle|].
        split; [exact Hfc|]. split.
        -- intros j c' Hj Hf.
           destruct (Nat.lt_ge_cases j (length cs)) as [Hlt|Hge].
           ++ rewrite lookup_app_l in Hj by exact Hlt.
              exfalso. apply (Hnone c'); [|exact Hf].
              apply list_elem_of_In, list_elem_of_lookup. eauto.
           ++ rewrite lookup_app_r in Hj by exact Hge.
              destruct (j - length cs)%nat; cbn in Hj; [|discriminate].
              injection Hj as <-. lra.
        -- intros j c' Hlt Hj Hf. rewrite lookup_app_l in Hj by exact Hlt.
           exfalso. apply (Hnone c'); [|exact Hf].
           apply list_elem_of_In, list_elem_of_lookup. eauto.
      * left. split; [reflexivity|]. intros c' Hin Hf.
        apply in_app_or in Hin. destruct Hin as [Hin|[<-|[]]].
        -- now apply (Hnone c').
        -- apply Hno. auto.
    + assert (Hklt : (k < length cs)%nat) by (eapply lookup_lt_Some; exact Hk).
      assert (Hrne : r <> []).
      { apply Hne'. apply list_elem_of_In, list_elem_of_lookup. eauto. }
      destruct (keep_better_cases C r c) as [(Hfc & Hrep & ->)|(Hno & ->)].
      * destruct Hrep as [?|Hlt]; [contradiction|].
        right. exists (length cs). split; [now apply list_lookup_middle|].
        split; [exact Hfc|].
        assert (Hall : forall j c', (cs ++ [c]) !! j = Some c' -> feasible C c' ->
                         (j < length cs)%nat -> (csum c' < csum c)%Q).
        { intros j c' Hj Hf Hjlt. rewrite lookup_app_l in Hj by exact Hjlt.
          specialize (Hmax j c' Hj Hf). lra. }
        split.
        -- intros j c' Hj Hf.
           destruct (Nat.lt_ge_cases j (length cs)) as [Hjlt|Hge].
           ++ specialize (Hall j c' Hj Hf Hjlt). lra.
           ++ rewrite lookup_app_r in Hj by exact Hge.
              destruct (j - length cs)%nat; cbn in Hj; [|discriminate].
              injection Hj as <-. lra.
        -- intros j c' Hjlt Hj Hf. now apply (Hall j c').
      * right. exists k. split; [rewrite lookup_app_l; [exact Hk | exact Hklt]|].
        split; [exact Hfr|]. split.
        -- intros j c' Hj Hf.
           destruct (Nat.lt_ge_cases j (length cs)) as [Hjlt|Hge].
           ++ rewrite lookup_app_l in Hj by exact Hjlt. now apply (Hmax j).
           ++ rewrite lookup_app_r in Hj by exact Hge.
              destruct (j - length cs)%nat; cbn in Hj; [|discriminate].
              injection Hj as <-.
              destruct (Qlt_le_dec (csum r) (csum c)) as [Hlt|Hle]; [|lra].
              exfalso. apply Hno. auto.
        -- intros j c' Hjlt Hj Hf.
           rewrite lookup_app_l in Hj by lia. now apply (Hfirst j).
Qed.

(** ** The exhaustive solver: the masks enumerated *)

Lemma pow2_le_int_max (n : nat) : (n <= 30)%nat -> 0 < 2 ^ Z.of_nat n <= 2 ^ 30.
Proof.
  intros Hn. split; [apply Z.pow_pos_nonneg; lia|].
  apply Z.pow_le_mono_r; lia.
Qed.

(** Up to 30 items [2^n] fits an [int] and the conversion is exact. *)
Lemma nSquared_of_small (p : platform) (foods : FoodVector) :
  (length foods <= 30)%nat -> nSquared_of p foods = 2 ^ Z.of_nat (length foods).
Proof.
  intros Hn. unfold nSquared_of, double_to_int.
  pose proof (pow2_le_int_max _ Hn) as [Hlo Hhi].
  change (2 ^ 30) with 1073741824 in Hhi.
  change int_min with (-2147483648). change int_max with 2147483647.
  rewrite (proj2 (Z.leb_le _ _)), (proj2 (Z.leb_le _ _)) by lia.
  reflexivity.
Qed.

Lemma masks_In (N m : Z) : In m (masks N) <-> 0 <= m < N.
Proof.
  unfold masks. rewrite in_map_iff. split.
  - intros (k & <- & Hk). apply in_seq in Hk. lia.
  - intros [Hlo Hhi]. exists (Z.to_nat m). split; [lia|]. apply in_seq. lia.
Qed.

Lemma masks_length (N : Z) : length (masks N) = Z.to_nat N.
Proof. unfold masks. now rewrite length_map, length_seq. Qed.

Lemma masks_pos (N : Z) :
  0 < N -> masks N = 0 :: map Z.of_nat (seq 1 (Z.to_nat N - 1)).
Proof.
  intros HN. unfold masks.
  replace (Z.to_nat N) with (S (Z.to_nat N - 1)) at 1 by lia. reflexivity.
Qed.

Lemma lookup_map_seq {A : Type} (g : nat -> A) (a len k : nat) (x : A) :
  map g (seq a len) !! k = Some x <-> (k < len)%nat /\ x = g (a + k)%nat.
Proof.
  revert a k. induction len as [|len IH]; intros a k; cbn [seq map].
  - split; [discriminate | lia].
  - destruct k as [|k]; cbn.
    + rewrite Nat.add_0_r. split; [intros [= <-]; split; [lia | reflexivity]|].
      now intros [_ ->].
    + change (map g (seq (S a) len) !! k = Some x <-> (S k < S len)%nat /\ x = g (a + S k)%nat).
      rewrite IH. replace (S a + k)%nat with (a + S k)%nat by lia.
      split; intros [? ?]; split; (lia || assumption).
Qed.

Lemma keep_better_nil (C : Q) : keep_better C [] [] = [].
Proof. now destruct (keep_better_cases C [] []) as [(_ & _ & ->)|(_ & ->)]. Qed.

(** ** The exhaustive solver: results *)

(** Up to 30 items, none of negative calories: the result is a feasible
    subset of the input that no feasible subset beats. *)
Lemma exhaustive_optimal_small
    (p : platform) (foods : FoodVector) (capacity : Q) :
  (length foods <= 30)%nat -> nonneg_calories foods -> (0 <= capacity)%Q ->
  exists best : FoodVector,
    exhaustive_max_calories p foods capacity = Returned best
    /\ (exists bs, length bs = length foods /\ best = select bs foods)
    /\ (total_weight_of best <= capacity)%Q
    /\ forall bs, length bs = length foods ->
         (total_weight_of (select bs foods) <= capacity)%Q ->
         (total_calories_of (select bs foods) <= total_calories_of best)%Q.
Proof.
  intros Hn Hnn HC. eexists. split; [apply exhaustive_as_fold; lia|].
  set (cs := map (candidate_of p foods) (masks (nSquared_of p foods))).
  assert (Hcs : forall c, In c cs ->
            exists bs, length bs = length foods /\ c = select bs foods).
  { intros c Hin. apply in_map_iff in Hin. destruct Hin as (m & <- & _).
    exists (bits_of p (length foods) m).
    split; [apply bits_of_length | apply candidate_of_select]. }
  split; [|split].
  - destruct (search_result_in capacity cs []) as [->|[Hin _]]; [|now apply Hcs].
    exists (replicate (length foods) false).
    split; [apply length_replicate | now rewrite select_all_false].
  - destruct (search_result_in capacity cs []) as [->|[_ Hf]]; [|exact Hf].
    rewrite total_weight_wsum. cbn. exact HC.
  - intros bs Hlen Hw. rewrite !total_calories_csum.
    apply (search_dominates capacity cs []).
    + intros c Hin. destruct (Hcs c Hin) as (bs' & _ & ->).
      now apply csum_select_nonneg.
    + rewrite <- (candidate_of_mask_of p) by lia.
      apply in_map. rewrite nSquared_of_small by exact Hn.
      apply masks_In. rewrite <- Hlen. apply mask_of_range.
    + exact Hw.
Qed.

(** C1: for a collection of at most 30 items, none of negative calories,
    and a capacity [>= 0], the collection returned by
    [exhaustive_max_calories] is a subset of the input of total weight
    [<= capacity], and no subset of the input of total weight [<= capacity]
    has strictly greater total calories. *)
Theorem exhaustive_feasible_and_optimal
    (p : platform) (foods : FoodVector) (capacity : Q) :
  (length foods <= 30)%nat -> nonneg_calories foods -> (0 <= capacity)%Q ->
  exists best : FoodVector,
    exhaustive_max_calories p foods capacity = Returned best
    /\ (exists bs, length bs = length foods /\ best = select bs foods)
    /\ (total_weight_of best <= capacity)%Q
    /\ forall bs, length bs = length foods ->
         (total_weight_of (select bs foods) <= capacity)%Q ->
         (total_calories_of (select bs foods) <= total_calories_of best)%Q.
Proof. exact (exhaustive_optimal_small p foods capacity). Qed.

Lemma exhaustive_feasible_and_optimal_witness :
  exists best : FoodVector,
    exhaustive_max_calories x86_64 trivial_foods 9 = Returned best
    /\ (exists bs, length bs = length trivial_foods /\ best = select bs trivial_foods)
    /\ (total_weight_of best <= 9)%Q
    /\ forall bs, length bs = length trivial_foods ->
         (total_weight_of (select bs trivial_foods) <= 9)%Q ->
         (total_calories_of (select bs trivial_foods) <= total_calories_of best)%Q.
Proof.
  apply (exhaustive_feasible_and_optimal x86_64 trivial_foods 9).
  - cbn. lia.
  - repeat constructor; cbn; discriminate.
  - discriminate.
Defined.

(** The replacement rule of one iteration, on any input: the candidate
    replaces the best exactly when it is feasible and the best is empty or
    has strictly fewer calories. *)
Lemma exhaustive_step_rule
    (p : platform) (foods : FoodVector) (capacity : Q) (best : FoodVector) (i : Z) :
  let cand := candidate_of p foods i in
  let replaces :=
    feasible capacity cand
    /\ (best = [] \/ (total_calories_of best < total_calories_of cand)%Q) in
  (replaces -> exhaustive_step p foods capacity best i = cand)
  /\ (~ replaces -> exhaustive_step p foods capacity best i = best).
Proof.
  intros cand replaces. unfold exhaustive_step, replaces. fold cand.
  rewrite !total_calories_csum.
  destruct (keep_better_cases capacity best cand) as [(Hf & Hr & ->)|(Hno & ->)];
    split; intros H; tauto.
Qed.

(** Up to 30 items: the empty collection when no non-empty subset is
    feasible, and otherwise the feasible non-empty candidate of greatest
    calories that has the lowest mask. *)
Lemma exhaustive_first_best_small
    (p : platform) (foods : FoodVector) (capacity : Q) :
  (length foods <= 30)%nat ->
  let N := 2 ^ Z.of_nat (length foods) in
  let cand := candidate_of p foods in
  exists best : FoodVector,
    exhaustive_max_calories p foods capacity = Returned best
    /\ ((best = [] /\ forall m, 0 < m < N -> ~ feasible capacity (cand m))
        \/ exists m, 0 < m < N /\ best = cand m /\ feasible capacity best
             /\ (forall m', 0 < m' < N -> feasible capacity (cand m') ->
                   (total_calories_of (cand m') <= total_calories_of best)%Q)
             /\ (forall m', 0 < m' < m -> feasible capacity (cand m') ->
                   (total_calories_of (cand m') < total_calories_of best)%Q)).
Proof.
  intros Hn N cand.
  eexists. split; [apply exhaustive_as_fold; lia|].
  rewrite nSquared_of_small by exact Hn. fold N.
  assert (HN : 0 < N <= 2 ^ 30) by (apply pow2_le_int_max; exact Hn).
  rewrite masks_pos by lia. cbn [map fold_left].
  rewrite candidate_of_zero by lia. rewrite keep_better_nil, map_map.
  set (M := (Z.to_nat N - 1)%nat).
  set (rest := map (fun k : nat => candidate_of p foods (Z.of_nat k)) (seq 1 M)).
  assert (Hin : forall m, 0 < m < N -> In (cand m) rest).
  { intros m Hm. apply in_map_iff. exists (Z.to_nat m).
    split; [now rewrite Z2Nat.id by lia | apply in_seq; lia]. }
  assert (Hne : forall c, In c rest -> c <> []).
  { intros c Hc. apply in_map_iff in Hc. destruct Hc as (k & <- & Hk).
    apply in_seq in Hk. apply candidate_of_nonempty; [lia|]. fold N. lia. }
  destruct (search_first_best capacity rest Hne)
    as [[Hr Hnone]|(k & Hk & Hfr & Hmax & Hfirst)].
  - left. split; [exact Hr|]. intros m Hm. now apply Hnone, Hin.
  - right. pose proof Hk as Hk'. apply lookup_map_seq in Hk' as [HkM Hrk].
    exists (Z.of_nat (1 + k)). split; [lia|]. split; [exact Hrk|].
    split; [exact Hfr|].
    assert (Hat : forall m', 0 < m' < N ->
              rest !! (Z.to_nat m' - 1)%nat = Some (cand m')).
    { intros m' Hm'. apply lookup_map_seq. split; [lia|].
      unfold cand. f_equal. lia. }
    split.
    + intros m' Hm' Hf. rewrite !total_calories_csum.
      exact (Hmax _ _ (Hat m' Hm') Hf).
    + intros m' Hm' Hf. rewrite !total_calories_csum.
      refine (Hfirst _ _ _ (Hat m' _) Hf); lia.
Qed.

(** C4: the best so far starts as the empty collection, of weight and
    calories 0; on any input an iteration replaces it by the candidate
    exactly when the candidate is feasible and the best is
    still empty or has strictly fewer calories, so a non-empty best is never
    replaced by a candidate of equal calories.  For at most 30 items the
    solver therefore returns the empty collection when no non-empty subset is
    feasible, and otherwise the feasible non-empty candidate of greatest
    calories that has the lowest mask. *)
Theorem exhaustive_first_found_wins
    (p : platform) (foods : FoodVector) (capacity : Q) :
  let N := 2 ^ Z.of_nat (length foods) in
  let cand := candidate_of p foods in
  let replaces (best : FoodVector) (i : Z) :=
    feasible capacity (cand i)
    /\ (best = [] \/ (total_calories_of best < total_calories_of (cand i))%Q) in
  sum_food_vector [] = (0%Q, 0%Q)
  /\ ((length foods < 64)%nat ->
      exhaustive_max_calories p foods capacity
      = Returned
          (fold_left (exhaustive_step p foods capacity)
             (masks (nSquared_of p foods)) []))
  /\ (forall best i,
        (replaces best i -> exhaustive_step p foods capacity best i = cand i)
        /\ (~ replaces best i -> exhaustive_step p foods capacity best i = best))
  /\ (forall best i,
        best <> [] ->
        (total_calories_of (cand i) <= total_calories_of best)%Q ->
        exhaustive_step p foods capacity best i = best)
  /\ ((length foods <= 30)%nat ->
      exists best : FoodVector,
        exhaustive_max_calories p foods capacity = Returned best
        /\ ((best = [] /\ forall m, 0 < m < N -> ~ feasible capacity (cand m))
            \/ exists m, 0 < m < N /\ best = cand m /\ feasible capacity best
                 /\ (forall m', 0 < m' < N -> feasible capacity (cand m') ->
                       (total_calories_of (cand m') <= total_calories_of best)%Q)
                 /\ (forall m', 0 < m' < m -> feasible capacity (cand m') ->
                       (total_calories_of (cand m') < total_calories_of best)%Q))).
Proof.
  intros N cand replaces. split; [reflexivity|]. split; [|split; [|split]].
  - intros Hn. unfold exhaustive_max_calories.
    destruct (Z.leb_spec 64 (Z.of_nat (length foods))); [lia | reflexivity].
  - intros best i. exact (exhaustive_step_rule p foods capacity best i).
  - intros best i Hne Hle.
    apply (exhaustive_step_rule p foods capacity best i).
    intros [_ [Hb|Hlt]]; [contradiction | fold cand in Hlt; lra].
  - intros Hn. exact (exhaustive_first_best_small p foods capacity Hn).
Qed.

Lemma exhaustive_first_found_wins_witness :
  exhaustive_step x86_64 [pasta; crumb] 5 [pasta] 2 = [pasta]
  /\ exists best : FoodVector,
       exhaustive_max_calories x86_64 [pasta; crumb] 5 = Returned best
       /\ ((best = []
            /\ forall m, 0 < m < 2 ^ 2 ->
                 ~ feasible 5 (candidate_of x86_64 [pasta; crumb] m))
           \/ exists m, 0 < m < 2 ^ 2
                /\ best = candidate_of x86_64 [pasta; crumb] m
                /\ feasible 5 best
                /\ (forall m', 0 < m' < 2 ^ 2 ->
                      feasible 5 (candidate_of x86_64 [pasta; crumb] m') ->
                      (total_calories_of (candidate_of x86_64 [pasta; crumb] m')
                       <= total_calories_of best)%Q)
                /\ (forall m', 0 < m' < m ->
                      feasible 5 (candidate_of x86_64 [pasta; crumb] m') ->
                      (total_calories_of (candidate_of x86_64 [pasta; crumb] m')
                       < total_calories_of best)%Q)).
Proof.
  destruct (exhaustive_first_found_wins x86_64 [pasta; crumb] 5)
    as (_ & _ & _ & Hkeep & Hrun).
  split.
  - apply (Hkeep [pasta] 2); [discriminate|]. vm_compute. discriminate.
  - apply Hrun. cbn. lia.
Defined.

(** On two items of equal calories that do not fit together, the one of the
    lower mask is returned. *)
Example exhaustive_equal_calories_first :
  exhaustive_max_calories x86_64 [pasta; crumb] 5 = Returned [pasta]
  /\ exhaustive_max_calories x86_64 [crumb; pasta] 5 = Returned [crumb].
Proof. split; reflexivity. Qed.

(** C4, as stated, fails: a feasible zero-calorie item replaces the initial
    empty best although its calories equal the best's. *)
Lemma exhaustive_zero_calorie_replaces_empty :
  exhaustive_max_calories x86_64 [garnish] 1 = Returned [garnish]
  /\ (total_calories_of [garnish] == total_calories_of [])%Q
  /\ exhaustive_step x86_64 [garnish] 1 [] 1 = [garnish].
Proof. repeat split. Qed.

(** C1, as stated, fails on an item of negative calories: it replaces the
    empty best, which is feasible and has more calories. *)
Lemma exhaustive_keeps_negative_calories :
  exhaustive_max_calories x86_64 [spoiled] 1 = Returned [spoiled]
  /\ select [false] [spoiled] = []
  /\ (total_weight_of (select [false] [spoiled]) <= 1)%Q
  /\ (total_calories_of [spoiled] < total_calories_of (select [false] [spoiled]))%Q.
Proof. repeat split; discriminate. Qed.

(** Every candidate, on any platform and for any mask, is a subset of the
    input. *)
Lemma candidates_are_subsets (p : platform) (foods : FoodVector) (ms : list Z) (c : FoodVector) :
  In c (map (candidate_of p foods) ms) ->
  exists bs, length bs = length foods /\ c = select bs foods.
Proof.
  intros Hin. apply in_map_iff in Hin. destruct Hin as (m & <- & _).
  exists (bits_of p (length foods) m).
  split; [apply bits_of_length | apply candidate_of_select].
Qed.

(** Up to 30 items the masks enumerated are [0 .. 2^n - 1], each once and in
    increasing order, and each selects the items at its set bits; from 64
    items on the assertion stops the process. *)
Lemma exhaustive_enumeration_small (p : platform) (foods : FoodVector) (capacity : Q) :
  ((length foods <= 30)%nat ->
   masks (nSquared_of p foods)
   = map Z.of_nat (seq 0 (Z.to_nat (2 ^ Z.of_nat (length foods))))
   /\ forall i,
        candidate_of p foods i
        = select (map (fun j => Z.testbit i (Z.of_nat j)) (seq 0 (length foods))) foods)
  /\ ((64 <= length foods)%nat -> exhaustive_max_calories p foods capacity = Aborted).
Proof.
  split.
  - intros Hn. rewrite nSquared_of_small by exact Hn. split; [reflexivity|].
    intros i. rewrite candidate_of_select, bits_of_testbit by lia. reflexivity.
  - intros Hn. unfold exhaustive_max_calories.
    destruct (Z.leb_spec 64 (Z.of_nat (length foods))); [reflexivity | lia].
Qed.

(** With 31 items [2^31] does not fit an [int]: whatever [int] the
    conversion leaves, fewer than [2^31] masks are enumerated. *)
Lemma exhaustive_enumeration_31_short (p : platform) (foods : FoodVector) :
  length foods = 31%nat -> int_min <= conv_oor p <= int_max ->
  nSquared_of p foods = conv_oor p
  /\ Z.of_nat (length (masks (nSquared_of p foods))) < 2 ^ 31.
Proof.
  intros Hn Hp. unfold nSquared_of. rewrite Hn.
  change (double_to_int p (2 ^ Z.of_nat 31)) with (conv_oor p).
  split; [reflexivity|]. rewrite masks_length.
  change int_max with (2 ^ 31 - 1) in Hp. lia.
Qed.

(** C5: a collection of 31 items, all of which fit: on x86-64 the
    conversion of [2^31] to [int] leaves [INT_MIN], no mask is enumerated
    and the empty collection is returned. *)
Theorem exhaustive_31_items_enumerates_nothing :
  length (replicate 31 snack) = 31%nat
  /\ nSquared_of x86_64 (replicate 31 snack) = int_min
  /\ masks (nSquared_of x86_64 (replicate 31 snack)) = []
  /\ exhaustive_max_calories x86_64 (replicate 31 snack) 31 = Returned []
  /\ (total_weight_of (replicate 31 snack) <= 31)%Q
  /\ (total_calories_of [] < total_calories_of (replicate 31 snack))%Q.
Proof. repeat split; vm_compute; congruence. Qed.

(** C10: for fewer than 64 items of positive weight and a strictly negative
    capacity the solver returns the empty collection, whose weight [0]
    exceeds the capacity. *)
Theorem exhaustive_negative_capacity
    (p : platform) (foods : FoodVector) (capacity : Q) :
  (length foods < 64)%nat -> positive_weights foods -> (capacity < 0)%Q ->
  exhaustive_max_calories p foods capacity = Returned []
  /\ (capacity < total_weight_of [])%Q.
Proof.
  intros Hn Hpos HC. rewrite exhaustive_as_fold by exact Hn.
  split; [|cbn; exact HC]. f_equal.
  destruct (search_result_in capacity
              (map (candidate_of p foods) (masks (nSquared_of p foods))) [])
    as [Hr|[Hin Hf]]; [exact Hr|].
  exfalso. apply candidates_are_subsets in Hin. destruct Hin as (bs & _ & Hbs).
  apply feasible_wsum in Hf. rewrite Hbs in Hf.
  pose proof (wsum_select_nonneg bs foods (positive_weights_nonneg _ Hpos)). lra.
Qed.

Lemma exhaustive_negative_capacity_witness :
  exhaustive_max_calories x86_64 trivial_foods (-1) = Returned []
  /\ (-1 < total_weight_of [])%Q.
Proof.
  apply (exhaustive_negative_capacity x86_64 trivial_foods (-1)).
  - cbn. lia.
  - repeat constructor.
  - reflexivity.
Defined.

(** The exhaustive optimum is monotone in the capacity when no item has
    negative calories, on any platform and for any size the assertion
    admits. *)
Lemma exhaustive_monotone (p : platform) (foods : FoodVector) (C1 C2 : Q) :
  (length foods < 64)%nat -> nonneg_calories foods -> (C1 <= C2)%Q ->
  exists r1 r2 : FoodVector,
    exhaustive_max_calories p foods C1 = Returned r1
    /\ exhaustive_max_calories p foods C2 = Returned r2
    /\ (total_calories_of r1 <= total_calories_of r2)%Q.
Proof.
  intros Hn Hnn HC. do 2 eexists.
  split; [apply exhaustive_as_fold; exact Hn|].
  split; [apply exhaustive_as_fold; exact Hn|].
  set (cs := map (candidate_of p foods) (masks (nSquared_of p foods))).
  assert (Hcs : forall c, In c cs -> (0 <= csum c)%Q).
  { intros c Hin. apply candidates_are_subsets in Hin.
    destruct Hin as (bs & _ & ->). now apply csum_select_nonneg. }
  rewrite !total_calories_csum.
  destruct (search_dominates C2 cs [] Hcs) as [H0 Hall].
  destruct (search_result_in C1 cs []) as [->|[Hin Hf]]; [exact H0|].
  apply Hall; [exact Hin|]. unfold feasible in *. lra.
Qed.

(** ** The dynamic-programming solver: the table *)

Lemma Qtrunc_nonneg (x : Q) : (0 <= x)%Q -> Qtrunc x = Qfloor x /\ 0 <= Qfloor x.
Proof.
  intros Hx. unfold Qtrunc. rewrite (proj2 (Qle_bool_iff 0 x) Hx).
  split; [reflexivity|]. change 0 with (Qfloor (inject_Z 0)).
  now apply Qfloor_resp_le.
Qed.

Lemma left_column_range (w : Z) (f : FoodItem) :
  (0 <= weight f)%Q -> (weight f <= inject_Z w)%Q ->
  0 <= left_column w f <= w
  /\ (inject_Z (left_column w f) <= inject_Z w - weight f)%Q.
Proof.
  intros H0 Hle. unfold left_column.
  destruct (Qtrunc_nonneg (inject_Z w - weight f)) as [-> Hnn]; [lra|].
  split; [split; [exact Hnn|] | apply Qfloor_le].
  rewrite <- (Qfloor_Z w) at 2. apply Qfloor_resp_le. lra.
Qed.

Lemma left_column_integral (w : Z) (f : FoodItem) :
  (inject_Z (Qfloor (weight f)) == weight f)%Q -> (weight f <= inject_Z w)%Q ->
  (inject_Z (left_column w f) == inject_Z w - weight f)%Q.
Proof.
  intros Hint Hle. unfold left_column.
  destruct (Qtrunc_nonneg (inject_Z w - weight f)) as [-> _]; [lra|].
  rewrite <- Hint at 1.
  assert (E : (inject_Z w - inject_Z (Qfloor (weight f))
               == inject_Z (w - Qfloor (weight f)))%Q).
  { unfold Z.sub. rewrite inject_Z_plus, inject_Z_opp. lra. }
  rewrite (Qfloor_comp _ _ E), Qfloor_Z, <- E. lra.
Qed.

Lemma table_dims_row (n W : nat) (K : table) (i : nat) :
  table_dims n W K -> (i <= n)%nat ->
  exists row, K !! i = Some row /\ length row = S W.
Proof.
  intros [Hlen Hrows] Hi.
  destruct (lookup_lt_is_Some_2 K i) as [row Hrow]; [lia|].
  exists row. split; [exact Hrow|].
  exact (proj1 (Forall_lookup _ _) Hrows i row Hrow).
Qed.

Lemma new_table_dims (n W : nat) : table_dims n W (new_table n W).
Proof.
  unfold table_dims, new_table. split; [apply length_replicate|].
  apply Forall_replicate, length_replicate.
Qed.

Lemma K_set_dims (n W : nat) (K : table) (i w : nat) (v : Q) :
  table_dims n W K -> table_dims n W (K_set K i w v).
Proof.
  intros [Hlen Hrows]. unfold K_set.
  destruct (K !! i) as [row|] eqn:Hrow; [|now split].
  split; [now rewrite length_insert|].
  apply Forall_insert; [exact Hrows|]. rewrite length_insert.
  exact (proj1 (Forall_lookup _ _) Hrows i row Hrow).
Qed.

Lemma K_get_set_same (n W : nat) (K : table) (i w : nat) (v : Q) :
  table_dims n W K -> (i <= n)%nat -> (w <= W)%nat ->
  K_get (K_set K i w v) i w = v.
Proof.
  intros HK Hi Hw. destruct (table_dims_row n W K i HK Hi) as (row & Hrow & Hlen).
  unfold K_get, K_set. rewrite Hrow.
  rewrite list_lookup_insert_eq by (destruct HK; lia).
  now rewrite list_lookup_insert_eq by lia.
Qed.

Lemma K_get_set_other (K : table) (i w i' w' : nat) (v : Q) :
  i <> i' \/ w <> w' -> K_get (K_set K i w v) i' w' = K_get K i' w'.
Proof.
  intros Hne. unfold K_get, K_set.
  destruct (K !! i) as [row|] eqn:Hrow; [|reflexivity].
  destruct (Nat.eq_dec i i') as [<-|Hi].
  - destruct Hne as [?|Hw]; [contradiction|].
    rewrite Hrow, list_lookup_insert_eq by (eapply lookup_lt_Some; exact Hrow).
    now rewrite list_lookup_insert_ne by exact Hw.
  - now rewrite list_lookup_insert_ne by exact Hi.
Qed.

Lemma Kfun_col0 (foods : FoodVector) (i : nat) : Kfun foods i 0 = 0%Q.
Proof. now destruct i. Qed.

(** On a row whose predecessor is filled, the loop body computes the
    recurrence, and the column it reads for "item taken" is in the table. *)
Lemma cell_Kfun (foods : FoodVector) (W : nat) (K : table) (i w : nat) :
  positive_weights foods -> (i <= length foods)%nat -> (w <= W)%nat ->
  filled foods W K i 0 -> cell foods K i w = Kfun foods i w.
Proof.
  intros Hpos Hi Hw [_ HK]. unfold cell.
  destruct i as [|i]; [reflexivity|].
  cbn [Nat.eqb orb Kfun]. replace (S i - 1)%nat with i by lia.
  destruct (Nat.eqb w 0); [reflexivity|].
  destruct (foods !! i) as [f|] eqn:Hf; [|reflexivity].
  assert (Hwf : (0 < weight f)%Q)
    by exact (proj1 (Forall_lookup _ _) Hpos i f Hf).
  rewrite (HK i w) by (auto; lia).
  destruct (Qle_bool (weight f) (inject_Z (Z.of_nat w))) eqn:Hg; [|reflexivity].
  apply Qle_bool_iff in Hg.
  destruct (left_column_range (Z.of_nat w) f) as [Hr _]; [lra | exact Hg |].
  unfold left_column in Hr. rewrite HK by lia. reflexivity.
Qed.

Lemma fill_row_filled (foods : FoodVector) (W : nat) (K : table) (i : nat) :
  positive_weights foods -> (i <= length foods)%nat ->
  filled foods W K i 0 -> filled foods W (fill_row foods W K i) (S i) 0.
Proof.
  intros Hpos Hi HK. unfold fill_row.
  assert (Hcols : forall c, (c <= S W)%nat ->
            filled foods W
              (fold_left (fun K w => K_set K i w (cell foods K i w)) (seq 0 c) K) i c).
  { induction c as [|c IH]; intros Hc; [exact HK|].
    rewrite seq_S, fold_left_app. cbn [fold_left Nat.add].
    specialize (IH ltac:(lia)).
    set (K' := fold_left _ (seq 0 c) K) in *.
    assert (Hrow0 : filled foods W K' i 0).
    { destruct IH as [Hd Hv]. split; [exact Hd|]. intros; apply Hv; lia. }
    rewrite (cell_Kfun foods W K' i c Hpos Hi ltac:(lia) Hrow0).
    destruct IH as [Hd Hv]. split; [now apply K_set_dims|].
    intros i' w' Hw' Hcase.
    destruct (Nat.eq_dec i i') as [<-|Hne];
      [destruct (Nat.eq_dec c w') as [<-|Hnc]|].
    - eapply K_get_set_same; [exact Hd | exact Hi | lia].
    - rewrite K_get_set_other by auto. apply Hv; lia.
    - rewrite K_get_set_other by auto. apply Hv; lia. }
  destruct (Hcols (S W) (Nat.le_refl _)) as [Hd Hv]. split; [exact Hd|].
  intros i' w' Hw' Hcase. apply Hv; lia.
Qed.

(** The table the solver builds has [n + 1] rows of [W + 1] columns and
    holds the recurrence's value in every cell. *)
Lemma build_table_filled (foods : FoodVector) (W : nat) :
  positive_weights foods ->
  filled foods W (build_table foods W) (S (length foods)) 0.
Proof.
  intros Hpos. unfold build_table, fill_table.
  assert (Hrows : forall r, (r <= S (length foods))%nat ->
            filled foods W
              (fold_left (fill_row foods W) (seq 0 r) (new_table (length foods) W)) r 0).
  { induction r as [|r IH]; intros Hr.
    - split; [apply new_table_dims | intros; lia].
    - rewrite seq_S, fold_left_app. cbn [fold_left Nat.add].
      apply fill_row_filled; [exact Hpos | lia | apply IH; lia]. }
  exact (Hrows _ (Nat.le_refl _)).
Qed.

Lemma build_table_Kfun (foods : FoodVector) (W i w : nat) :
  positive_weights foods -> (i <= length foods)%nat -> (w <= W)%nat ->
  K_get (build_table foods W) i w = Kfun foods i w.
Proof.
  intros Hpos Hi Hw. apply (build_table_filled foods W Hpos); [exact Hw | lia].
Qed.

(** ** The dynamic-programming solver: the recurrence *)

Lemma std_max_cases (a b : Q) :
  ((a < b)%Q /\ std_max a b = b) \/ ((b <= a)%Q /\ std_max a b = a).
Proof.
  unfold std_max. destruct (Qlt_bool a b) eqn:H.
  - left. split; [now apply Qlt_bool_iff | reflexivity].
  - right. split; [now apply Qlt_bool_false_iff | reflexivity].
Qed.

Lemma std_max_Qmax (a b : Q) : (std_max a b == Qmax b a)%Q.
Proof.
  destruct (std_max_cases a b) as [[H ->]|[H ->]].
  - symmetry. apply Q.max_l. lra.
  - symmetry. now apply Q.max_r.
Qed.

Lemma Kfun_nonneg (foods : FoodVector) (i w : nat) : (0 <= Kfun foods i w)%Q.
Proof.
  revert w. induction i as [|i IH]; intros w; cbn [Kfun]; [lra|].
  destruct (Nat.eqb w 0); [lra|].
  destruct (foods !! i) as [f|]; [|lra].
  destruct (Qle_bool (weight f) (inject_Z (Z.of_nat w))); [|apply IH].
  match goal with |- (0 <= std_max ?a ?b)%Q =>
    destruct (std_max_cases a b) as [[H ->]|[H ->]] end.
  - apply IH.
  - specialize (IH w). lra.
Qed.

(** One more item never lowers the optimum. *)
Lemma Kfun_more_items (foods : FoodVector) (i w : nat) :
  (i < length foods)%nat -> (Kfun foods i w <= Kfun foods (S i) w)%Q.
Proof.
  intros Hi. cbn [Kfun].
  destruct (Nat.eqb_spec w 0) as [->|_]; [rewrite Kfun_col0; lra|].
  destruct (lookup_lt_is_Some_2 foods i Hi) as [f ->].
  destruct (Qle_bool (weight f) (inject_Z (Z.of_nat w))); [|lra].
  match goal with |- (_ <= std_max ?a ?b)%Q =>
    destruct (std_max_cases a b) as [[H ->]|[H ->]] end; lra.
Qed.

(** The optimum is monotone in the capacity. *)
Lemma Kfun_mono (foods : FoodVector) (i w w' : nat) :
  (w <= w')%nat -> (Kfun foods i w <= Kfun foods i w')%Q.
Proof.
  revert w w'. induction i as [|i IH]; intros w w' Hw; cbn [Kfun]; [lra|].
  destruct (Nat.eqb_spec w 0) as [->|Hw0].
  { apply (Kfun_nonneg foods (S i) w'). }
  destruct (Nat.eqb_spec w' 0) as [->|_]; [lia|].
  destruct (foods !! i) as [f|]; [|lra].
  pose proof (IH w w' Hw) as Hsame.
  destruct (Qle_bool (weight f) (inject_Z (Z.of_nat w))) eqn:Hg.
  - apply Qle_bool_iff in Hg.
    assert (Hg' : (weight f <= inject_Z (Z.of_nat w'))%Q).
    { assert (inject_Z (Z.of_nat w) <= inject_Z (Z.of_nat w'))%Q
        by (rewrite <- Zle_Qle; lia). lra. }
    rewrite (proj2 (Qle_bool_iff _ _) Hg').
    assert (Hcol : (Z.to_nat (Qtrunc (inject_Z (Z.of_nat w) - weight f))
                    <= Z.to_nat (Qtrunc (inject_Z (Z.of_nat w') - weight f)))%nat).
    { destruct (Qtrunc_nonneg (inject_Z (Z.of_nat w) - weight f)) as [-> ?]; [lra|].
      destruct (Qtrunc_nonneg (inject_Z (Z.of_nat w') - weight f)) as [-> ?]; [lra|].
      apply Z2Nat.inj_le; [assumption | assumption | apply Qfloor_resp_le].
      assert (inject_Z (Z.of_nat w) <= inject_Z (Z.of_nat w'))%Q
        by (rewrite <- Zle_Qle; lia). lra. }
    pose proof (IH _ _ Hcol) as Hleft.
    rewrite !std_max_Qmax. apply Q.max_le_compat; lra.
  - destruct (Qle_bool (weight f) (inject_Z (Z.of_nat w'))); [|exact Hsame].
    rewrite std_max_Qmax. pose proof (Q.le_max_l (Kfun foods i w')
      (foodCalories f
       + Kfun foods i (Z.to_nat (Qtrunc (inject_Z (Z.of_nat w') - weight f))))).
    lra.
Qed.

(** When the value of a cell differs from the one above it, the item of the
    row fits and the cell holds its calories plus the cell to the left. *)
Lemma Kfun_taken (foods : FoodVector) (i w : nat) :
  (i < length foods)%nat ->
  Qeq_bool (Kfun foods (S i) w) (Kfun foods i w) = false ->
  exists f, foods !! i = Some f
    /\ (weight f <= inject_Z (Z.of_nat w))%Q
    /\ Kfun foods (S i) w
       = (foodCalories f + Kfun foods i (Z.to_nat (left_column (Z.of_nat w) f)))%Q.
Proof.
  intros Hi. cbn [Kfun].
  destruct (Nat.eqb_spec w 0) as [->|_].
  { rewrite Kfun_col0. discriminate. }
  destruct (lookup_lt_is_Some_2 foods i Hi) as [f ->].
  destruct (Qle_bool (weight f) (inject_Z (Z.of_nat w))) eqn:Hg.
  - apply Qle_bool_iff in Hg. unfold left_column.
    match goal with |- Qeq_bool (std_max ?a ?b) _ = _ -> _ =>
      destruct (std_max_cases a b) as [[H ->]|[H ->]] end.
    + rewrite Qeq_bool_refl. discriminate.
    + intros _. eauto.
  - rewrite Qeq_bool_refl. discriminate.
Qed.

(** ** The dynamic-programming solver: the reconstruction *)

(** The loop from row [i] down to row 1 appends the items of the backward
    walk to what it already holds. *)
Lemma walk_loop (foods : FoodVector) (K : table) (i : nat) (best : FoodVector) (w : Z) :
  fst (fold_left (walk_step foods K) (rev (seq 1 i)) (best, w))
  = best ++ walk_from foods K i w.
Proof.
  revert best w. induction i as [|i IH]; intros best w.
  - cbn. now rewrite app_nil_r.
  - rewrite seq_S, rev_app_distr. cbn [rev app fold_left Nat.add walk_from].
    unfold walk_step at 2. replace (S i - 1)%nat with i by lia.
    destruct (Qeq_bool (K_get K (S i) (Z.to_nat w)) (K_get K i (Z.to_nat w)));
      [apply IH|].
    destruct (foods !! i) as [f|]; [|apply IH].
    rewrite IH. now rewrite <- app_assoc.
Qed.

Lemma dynamic_as_walk (foods : FoodVector) (W : Z) :
  0 <= W ->
  dynamic_max_calories foods W
  = Returned (walk_from foods (build_table foods (Z.to_nat W)) (length foods) W).
Proof.
  intros HW. unfold dynamic_max_calories.
  destruct (Z.ltb_spec W (-1)); [lia|].
  destruct (Z.eqb_spec W (-1)); [lia|].
  unfold walk. rewrite walk_loop. reflexivity.
Qed.

(** The walk from [(i, w)] stays inside the table, collects items worth the
    cell it starts from, of total weight at most [w], last item first. *)
Lemma walk_from_sound (foods : FoodVector) (W : nat) (K : table) :
  positive_weights foods -> holds_recurrence foods W K ->
  forall (i : nat) (w : Z), (i <= length foods)%nat -> 0 <= w <= Z.of_nat W ->
    (csum (walk_from foods K i w) == Kfun foods i (Z.to_nat w))%Q
    /\ (wsum (walk_from foods K i w) <= inject_Z w)%Q
    /\ exists bs, length bs = i
         /\ rev (walk_from foods K i w) = select bs (take i foods).
Proof.
  intros Hpos HK. induction i as [|i IH]; intros w Hi Hw.
  - cbn [walk_from csum wsum Kfun]. split; [lra|].
    split; [rewrite Zle_Qle in Hw; apply Hw|]. now exists [].
  - cbn [walk_from]. rewrite !HK by lia.
    destruct (lookup_lt_is_Some_2 foods i ltac:(lia)) as [f Hf].
    assert (Hlen : forall bs : list bool, length bs = i -> length bs = length (take i foods))
      by (intros bs ->; rewrite length_take; lia).
    destruct (Qeq_bool (Kfun foods (S i) (Z.to_nat w)) (Kfun foods i (Z.to_nat w))) eqn:He.
    + destruct (IH w ltac:(lia) Hw) as (Hc & Hwt & bs & Hbs & Hsel).
      apply Qeq_bool_eq in He. split; [rewrite Hc, He; lra|]. split; [exact Hwt|].
      exists (bs ++ [false]). split; [rewrite length_app; cbn; lia|].
      rewrite (take_S_r _ _ _ Hf), select_snoc by auto.
      now rewrite app_nil_r.
    + destruct (Kfun_taken foods i (Z.to_nat w) ltac:(lia) He) as (f' & Hf' & Hg & Hval).
      rewrite Hf in Hf'. injection Hf' as <-. rewrite Hf.
      rewrite Z2Nat.id in Hg, Hval by lia.
      assert (Hwf : (0 < weight f)%Q)
        by exact (proj1 (Forall_lookup _ _) Hpos i f Hf).
      destruct (left_column_range w f) as [Hr Hq]; [lra | exact Hg |].
      fold (left_column w f).
      destruct (IH (left_column w f) ltac:(lia) ltac:(lia))
        as (Hc & Hwt & bs & Hbs & Hsel).
      cbn [csum wsum rev]. split; [rewrite Hc, Hval; lra|]. split; [lra|].
      exists (bs ++ [true]). split; [rewrite length_app; cbn; lia|].
      rewrite (take_S_r _ _ _ Hf), select_snoc by auto.
      now rewrite Hsel.
Qed.

(** With integral weights no subset of the first [i] items that weighs at
    most [w] has more calories than the recurrence's value. *)
Lemma Kfun_upper_bound (foods : FoodVector) :
  positive_weights foods -> integral_weights foods ->
  forall (i : nat) (bs : list bool) (w : nat),
    (i <= length foods)%nat -> length bs = i ->
    (wsum (select bs (take i foods)) <= inject_Z (Z.of_nat w))%Q ->
    (csum (select bs (take i foods)) <= Kfun foods i w)%Q.
Proof.
  intros Hpos Hint. induction i as [|i IH]; intros bs w Hi Hlen Hw.
  - destruct bs; [cbn; lra | discriminate].
  - destruct (lookup_lt_is_Some_2 foods i ltac:(lia)) as [f Hf].
    destruct (exists_last (l := bs)) as (bs' & b & ->);
      [intros ->; discriminate|].
    rewrite length_app in Hlen. cbn in Hlen.
    assert (Hlen' : length bs' = length (take i foods))
      by (rewrite length_take; lia).
    rewrite (take_S_r _ _ _ Hf), select_snoc in Hw |- * by exact Hlen'.
    rewrite wsum_app in Hw. rewrite csum_app.
    assert (Hwf : (0 < weight f)%Q)
      by exact (proj1 (Forall_lookup _ _) Hpos i f Hf).
    assert (Hif : (inject_Z (Qfloor (weight f)) == weight f)%Q)
      by exact (proj1 (Forall_lookup _ _) Hint i f Hf).
    destruct b; cbn [wsum csum] in *.
    + assert (Hsel0 : (0 <= wsum (select bs' (take i foods)))%Q).
      { apply wsum_select_nonneg, positive_weights_nonneg.
        unfold positive_weights. now apply Forall_take. }
      assert (Hg : (weight f <= inject_Z (Z.of_nat w))%Q) by lra.
      destruct (left_column_range (Z.of_nat w) f) as [Hr _]; [lra | exact Hg |].
      pose proof (left_column_integral (Z.of_nat w) f Hif Hg) as Hcol.
      assert (Hrest : (csum (select bs' (take i foods))
                       <= Kfun foods i (Z.to_nat (left_column (Z.of_nat w) f)))%Q).
      { apply IH; [lia | lia |]. rewrite Z2Nat.id by lia. lra. }
      cbn [Kfun]. rewrite Hf.
      destruct (Nat.eqb_spec w 0) as [->|_];
        [change (inject_Z (Z.of_nat 0)) with 0%Q in Hg; lra|].
      rewrite (proj2 (Qle_bool_iff _ _) Hg). fold (left_column (Z.of_nat w) f).
      rewrite std_max_Qmax.
      pose proof (Q.le_max_r (Kfun foods i w)
        (foodCalories f + Kfun foods i (Z.to_nat (left_column (Z.of_nat w) f)))).
      lra.
    + pose proof (IH bs' w ltac:(lia) ltac:(lia) ltac:(lra)).
      pose proof (Kfun_more_items foods i w ltac:(lia)). lra.
Qed.

(** ** The dynamic-programming solver: results *)

Lemma FoodItem_ok_positive (foods : FoodVector) :
  Forall FoodItem_ok foods -> positive_weights foods.
Proof. apply List.Forall_impl. intros f [_ H]. exact H. Qed.

(** The solver returns the items of the backward walk from [(n, W)]: they
    are worth [Kfun n W], weigh at most [W], and read backwards are a subset
    of the input in input order. *)
Lemma dynamic_sound (foods : FoodVector) (W : Z) :
  0 <= W -> positive_weights foods ->
  exists d : FoodVector,
    dynamic_max_calories foods W = Returned d
    /\ (csum d == Kfun foods (length foods) (Z.to_nat W))%Q
    /\ (wsum d <= inject_Z W)%Q
    /\ exists bs, length bs = length foods /\ rev d = select bs foods.
Proof.
  intros HW Hpos. eexists. split; [now apply dynamic_as_walk|].
  destruct (walk_from_sound foods (Z.to_nat W) (build_table foods (Z.to_nat W)) Hpos)
    with (i := length foods) (w := W) as (Hc & Hw & bs & Hbs & Hsel);
    [intros i w Hi Hw; now apply build_table_Kfun | lia | lia |].
  split; [exact Hc|]. split; [exact Hw|].
  exists bs. split; [exact Hbs|]. now rewrite firstn_all in Hsel.
Qed.



(** ** The two solvers together *)

(** Up to 30 constructed items of integral weight and non-negative
    calories: the two results are worth the last cell of the table. *)
Lemma solvers_agree_small (p : platform) (foods : FoodVector) (W : Z) :
  (length foods <= 30)%nat -> positive_weights foods ->
  integral_weights foods -> nonneg_calories foods -> 0 <= W ->
  exists e d : FoodVector,
    exhaustive_max_calories p foods (inject_Z W) = Returned e
    /\ dynamic_max_calories foods W = Returned d
    /\ (csum e == csum d)%Q.
Proof.
  intros Hn Hpos Hint Hnn HW.
  destruct (exhaustive_optimal_small p foods (inject_Z W) Hn Hnn)
    as (e & He & (bs & Hbs & Hsel) & Hfe & Hopt);
    [rewrite Zle_Qle in HW; exact HW|].
  destruct (dynamic_sound foods W HW Hpos) as (d & Hd & Hcd & Hwd & bs' & Hbs' & Hsel').
  exists e, d. split; [exact He|]. split; [exact Hd|].
  apply Qle_antisym.
  - rewrite Hcd, Hsel, <- (firstn_all foods) at 1.
    rewrite Hsel, total_weight_wsum, <- (firstn_all foods) in Hfe at 1.
    apply Kfun_upper_bound; try assumption; [lia|].
    now rewrite Z2Nat.id by lia.
  - specialize (Hopt bs' Hbs'). rewrite <- Hsel' in Hopt.
    rewrite total_weight_wsum, !total_calories_csum, wsum_rev, csum_rev in Hopt.
    now apply Hopt.
Qed.

(** C2: for at most 30 constructed items of integral weight and
    non-negative calories and an integer capacity [W >= 0], the collection
    the exhaustive solver returns and the collection the dynamic-programming
    solver returns, read in input order (the reverse of the order it is
    returned in), have the same total calories. *)
Theorem solvers_agree_on_total_calories
    (p : platform) (foods : FoodVector) (W : Z) :
  (length foods <= 30)%nat -> Forall FoodItem_ok foods ->
  integral_weights foods -> nonneg_calories foods -> 0 <= W ->
  exists e d : FoodVector,
    exhaustive_max_calories p foods (inject_Z W) = Returned e
    /\ dynamic_max_calories foods W = Returned d
    /\ (total_calories_of e == total_calories_of (rev d))%Q.
Proof.
  intros Hn Hok Hint Hnn HW.
  destruct (solvers_agree_small p foods W Hn (FoodItem_ok_positive foods Hok) Hint Hnn HW)
    as (e & d & He & Hd & Heq).
  exists e, d. split; [exact He|]. split; [exact Hd|].
  now rewrite !total_calories_csum, csum_rev.
Qed.

Lemma solvers_agree_on_total_calories_witness :
  exists e d : FoodVector,
    exhaustive_max_calories x86_64 trivial_foods (inject_Z 14) = Returned e
    /\ dynamic_max_calories trivial_foods 14 = Returned d
    /\ (total_calories_of e == total_calories_of (rev d))%Q.
Proof.
  apply (solvers_agree_on_total_calories x86_64 trivial_foods 14).
  - cbn. lia.
  - repeat constructor; discriminate.
  - repeat constructor.
  - repeat constructor; discriminate.
  - lia.
Defined.

(** C2, as stated, fails on weights that are not integral: two items of
    weight 5/2 fit a capacity of 5 together, but the table gives each the
    columns of a weight of 3.  It also fails on an item of negative
    calories, which only the exhaustive solver returns. *)
Lemma solvers_disagree_on_fractional_weights :
  exhaustive_max_calories x86_64 [half_loaf; half_loaf] 5
  = Returned [half_loaf; half_loaf]
  /\ dynamic_max_calories [half_loaf; half_loaf] 5 = Returned [half_loaf]
  /\ (total_calories_of [half_loaf] < total_calories_of [half_loaf; half_loaf])%Q
  /\ exhaustive_max_calories x86_64 [spoiled] 1 = Returned [spoiled]
  /\ dynamic_max_calories [spoiled] 1 = Returned []
  /\ (total_calories_of [spoiled] < total_calories_of [])%Q.
Proof. repeat split; vm_compute; reflexivity. Qed.

(** The last cell of the table, which the returned collection is worth, is
    monotone in the capacity. *)
Lemma dynamic_monotone (foods : FoodVector) (W1 W2 : Z) :
  positive_weights foods -> 0 <= W1 <= W2 ->
  exists d1 d2 : FoodVector,
    dynamic_max_calories foods W1 = Returned d1
    /\ dynamic_max_calories foods W2 = Returned d2
    /\ (csum d1 <= csum d2)%Q.
Proof.
  intros Hpos HW.
  destruct (dynamic_sound foods W1 ltac:(lia) Hpos) as (d1 & Hd1 & Hc1 & _).
  destruct (dynamic_sound foods W2 ltac:(lia) Hpos) as (d2 & Hd2 & Hc2 & _).
  exists d1, d2. split; [exact Hd1|]. split; [exact Hd2|].
  rewrite Hc1, Hc2. apply Kfun_mono. lia.
Qed.

(** C8: the total calories of the solution never decrease when the capacity
    grows: for the exhaustive solver on fewer than 64 items none of which
    has negative calories; and for the dynamic-programming solver on any
    collection of constructed items and capacities [>= 0], the returned
    collection being read in input order (the reverse of the order it is
    returned in). *)
Theorem optimum_monotone_in_capacity
    (p : platform) (foods : FoodVector) (C1 C2 : Q) (W1 W2 : Z) :
  ((length foods < 64)%nat -> nonneg_calories foods -> (C1 <= C2)%Q ->
   exists r1 r2 : FoodVector,
     exhaustive_max_calories p foods C1 = Returned r1
     /\ exhaustive_max_calories p foods C2 = Returned r2
     /\ (total_calories_of r1 <= total_calories_of r2)%Q)
  /\ (Forall FoodItem_ok foods -> 0 <= W1 <= W2 ->
      exists d1 d2 : FoodVector,
        dynamic_max_calories foods W1 = Returned d1
        /\ dynamic_max_calories foods W2 = Returned d2
        /\ (total_calories_of (rev d1) <= total_calories_of (rev d2))%Q).
Proof.
  split.
  - intros Hn Hnn HC. now apply exhaustive_monotone.
  - intros Hok HW.
    destruct (dynamic_monotone foods W1 W2 (FoodItem_ok_positive foods Hok) HW)
      as (d1 & d2 & Hd1 & Hd2 & Hle).
    exists d1, d2. split; [exact Hd1|]. split; [exact Hd2|].
    now rewrite !total_calories_csum, !csum_rev.
Qed.

Lemma optimum_monotone_in_capacity_witness :
  (exists r1 r2 : FoodVector,
     exhaustive_max_calories x86_64 trivial_foods 9 = Returned r1
     /\ exhaustive_max_calories x86_64 trivial_foods 10 = Returned r2
     /\ (total_calories_of r1 <= total_calories_of r2)%Q)
  /\ exists d1 d2 : FoodVector,
       dynamic_max_calories (replicate 70 pasta) 9 = Returned d1
       /\ dynamic_max_calories (replicate 70 pasta) 10 = Returned d2
       /\ (total_calories_of (rev d1) <= total_calories_of (rev d2))%Q.
Proof.
  split.
  - apply (optimum_monotone_in_capacity x86_64 trivial_foods 9 10 9 10).
    + cbn. lia.
    + repeat constructor; discriminate.
    + discriminate.
  - apply (optimum_monotone_in_capacity x86_64 (replicate 70 pasta) 9 10 9 10).
    + apply Forall_replicate. split; [discriminate | reflexivity].
    + lia.
Defined.

(** C8, as stated, fails on an item of negative calories: at capacity 0 the
    exhaustive solver returns nothing, at capacity 1 the item. *)
Lemma exhaustive_not_monotone_on_negative_calories :
  exhaustive_max_calories x86_64 [spoiled] 0 = Returned []
  /\ exhaustive_max_calories x86_64 [spoiled] 1 = Returned [spoiled]
  /\ (0 <= 1)%Q
  /\ (total_calories_of [spoiled] < total_calories_of [])%Q.
Proof. repeat split; vm_compute; congruence. Qed.

(** At capacity 0 the exhaustive solver returns the empty collection on
    fewer than 64 items of positive weight. *)
Lemma exhaustive_zero_capacity (p : platform) (foods : FoodVector) :
  (length foods < 64)%nat -> positive_weights foods ->
  exhaustive_max_calories p foods 0 = Returned [].
Proof.
  intros Hn Hpos. rewrite exhaustive_as_fold by exact Hn. f_equal.
  destruct (search_result_in 0
              (map (candidate_of p foods) (masks (nSquared_of p foods))) [])
    as [Hr|[Hin Hf]]; [exact Hr|].
  apply candidates_are_subsets in Hin. destruct Hin as (bs & _ & Hbs).
  apply feasible_wsum in Hf. rewrite Hbs in Hf |- *.
  destruct (select bs foods) eqn:Hsel; [reflexivity|].
  pose proof (wsum_select_pos bs foods Hpos) as Hp. rewrite Hsel in Hp.
  specialize (Hp ltac:(discriminate)). lra.
Qed.

(** At capacity 0 the dynamic-programming solver returns the empty
    collection on items of positive weight, however many. *)
Lemma dynamic_zero_capacity (foods : FoodVector) :
  positive_weights foods -> dynamic_max_calories foods 0 = Returned [].
Proof.
  intros Hpos.
  destruct (dynamic_sound foods 0 ltac:(lia) Hpos) as (d & Hd & _ & Hw & bs & _ & Hsel).
  rewrite Hd. f_equal. rewrite <- (rev_involutive d), Hsel.
  rewrite <- wsum_rev, Hsel in Hw.
  destruct (select bs foods) eqn:Hs; [reflexivity|].
  pose proof (wsum_select_pos bs foods Hpos) as Hp. rewrite Hs in Hp.
  specialize (Hp ltac:(discriminate)). change (inject_Z 0) with 0%Q in Hw. lra.
Qed.

Lemma exhaustive_empty_collection (p : platform) (capacity : Q) :
  exhaustive_max_calories p [] capacity = Returned [].
Proof.
  rewrite exhaustive_as_fold by (cbn; lia). f_equal.
  destruct (search_result_in capacity
              (map (candidate_of p []) (masks (nSquared_of p []))) [])
    as [Hr|[Hin _]]; [exact Hr|].
  apply candidates_are_subsets in Hin. destruct Hin as (bs & _ & ->).
  now destruct bs.
Qed.

(** C9: on the empty collection both solvers return the empty collection
    for every capacity [>= 0]; at capacity 0 the dynamic-programming solver
    returns the empty collection on every collection of constructed items,
    and the exhaustive solver on every such collection of fewer than 64
    items. *)
Theorem degenerate_inputs_yield_empty
    (p : platform) (foods : FoodVector) (capacity : Q) (W : Z) :
  (0 <= capacity)%Q -> 0 <= W -> Forall FoodItem_ok foods ->
  exhaustive_max_calories p [] capacity = Returned []
  /\ dynamic_max_calories [] W = Returned []
  /\ ((length foods < 64)%nat -> exhaustive_max_calories p foods 0 = Returned [])
  /\ dynamic_max_calories foods 0 = Returned [].
Proof.
  intros HC HW Hok. pose proof (FoodItem_ok_positive foods Hok) as Hpos.
  split; [apply exhaustive_empty_collection|].
  split; [now rewrite dynamic_as_walk|].
  split; [intros Hn; now apply exhaustive_zero_capacity|].
  now apply dynamic_zero_capacity.
Qed.

Lemma degenerate_inputs_yield_empty_witness :
  exhaustive_max_calories x86_64 [] 7 = Returned []
  /\ dynamic_max_calories [] 7 = Returned []
  /\ exhaustive_max_calories x86_64 trivial_foods 0 = Returned []
  /\ dynamic_max_calories (replicate 70 pasta) 0 = Returned [].
Proof.
  destruct (degenerate_inputs_yield_empty x86_64 trivial_foods 7 7)
    as (H1 & H2 & H3 & _).
  - discriminate.
  - lia.
  - repeat constructor; discriminate.
  - split; [exact H1|]. split; [exact H2|]. split; [apply H3; cbn; lia|].
    apply (degenerate_inputs_yield_empty x86_64 (replicate 70 pasta) 7 7).
    + discriminate.
    + lia.
    + apply Forall_replicate. split; [discriminate | reflexivity].
Defined.

(** ** Further properties of the exhaustive solver *)

Lemma NoDup_map_injective {A B : Type} (g : A -> B) (l : list A) :
  (forall x y, g x = g y -> x = y) -> NoDup l -> NoDup (map g l).
Proof.
  intros Hinj Hl. induction Hl as [|x l Hx _ IH]; cbn [map]; constructor.
  - rewrite list_elem_of_In, in_map_iff. intros (y & Hy & Hin).
    apply Hinj in Hy. subst y. now apply Hx, list_elem_of_In.
  - exact IH.
Qed.

(** The bits of a mask below [2^n] give the mask back. *)
Lemma mask_of_testbits (n : nat) (m : Z) :
  0 <= m < 2 ^ Z.of_nat n ->
  mask_of (map (fun j => Z.testbit m (Z.of_nat j)) (seq 0 n)) = m.
Proof.
  revert m. induction n as [|n IH]; intros m Hm.
  - cbn in *. lia.
  - cbn [seq map mask_of]. rewrite <- seq_shift, map_map.
    rewrite Nat2Z.inj_succ, Z.pow_succ_r in Hm by lia.
    erewrite map_ext;
      [|intros j; rewrite Nat2Z.inj_succ, <- Z.div2_bits by lia; reflexivity].
    rewrite IH.
    + change (Z.of_nat 0) with 0. rewrite Z.bit0_mod.
      symmetry. apply Z.div_mod. lia.
    + split; [apply Z.div_pos; lia | apply Z.div_lt_upper_bound; lia].
Qed.

Lemma select_all_true {A : Type} (l : list A) :
  select (replicate (length l) true) l = l.
Proof. induction l as [|x l IH]; cbn; [reflexivity | now rewrite IH]. Qed.

Lemma csum_select_le (bs : list bool) (foods : FoodVector) :
  nonneg_calories foods -> (csum (select bs foods) <= csum foods)%Q.
Proof.
  intros H. revert bs. induction H as [|f foods Hf _ IH]; intros [|b bs];
    cbn [select csum]; try lra.
  - pose proof (IH []) as H0. destruct foods; cbn in *; lra.
  - specialize (IH bs). destruct b; cbn [csum]; lra.
Qed.

Lemma positive_calories_nonneg (foods : FoodVector) :
  positive_calories foods -> nonneg_calories foods.
Proof. apply List.Forall_impl. intros f Hf. lra. Qed.

Lemma csum_select_pos (bs : list bool) (foods : FoodVector) :
  positive_calories foods -> select bs foods <> [] -> (0 < csum (select bs foods))%Q.
Proof.
  intros H. revert bs. induction H as [|f foods Hf Hfs IH]; intros [|b bs] Hne;
    cbn in *; try congruence.
  destruct b; cbn.
  - pose proof (csum_select_nonneg bs foods (positive_calories_nonneg _ Hfs)). lra.
  - now apply IH.
Qed.

(** Among items of positive calories only the whole collection has the
    calories of the whole collection. *)
Lemma select_whole (bs : list bool) (foods : FoodVector) :
  positive_calories foods -> length bs = length foods ->
  (csum foods <= csum (select bs foods))%Q -> select bs foods = foods.
Proof.
  intros H. revert bs. induction H as [|f foods Hf Hfs IH]; intros [|b bs] Hlen Hc;
    try discriminate; [reflexivity|].
  cbn in Hlen. destruct b; cbn [select csum] in *.
  - f_equal. apply IH; [lia | lra].
  - pose proof (csum_select_le bs foods (positive_calories_nonneg _ Hfs)). lra.
Qed.

(** The heaviest a non-empty subset can avoid being: it weighs at least as
    much as one of the items of the input. *)
Lemma wsum_select_ge_member (bs : list bool) (foods : FoodVector) (bound : Q) :
  positive_weights foods -> Forall (fun f => (bound < weight f)%Q) foods ->
  select bs foods <> [] -> (bound < wsum (select bs foods))%Q.
Proof.
  intros Hpos Hb. revert bs.
  induction Hb as [|f foods Hf Hfs IH]; intros [|b bs] Hne; cbn in *; try congruence.
  apply Forall_cons in Hpos as [_ Hpos]. destruct b; cbn.
  - pose proof (wsum_select_nonneg bs foods (positive_weights_nonneg _ Hpos)). lra.
  - now apply IH.
Qed.

(** X1: on fewer than 64 items and a capacity [>= 0], whatever the calories
    and the platform, the solver returns a subset of the input, in input
    order, whose total weight is at most the capacity. *)
Theorem exhaustive_returns_feasible_subset
    (p : platform) (foods : FoodVector) (capacity : Q) :
  (length foods < 64)%nat -> (0 <= capacity)%Q ->
  exists best : FoodVector,
    exhaustive_max_calories p foods capacity = Returned best
    /\ (exists bs, length bs = length foods /\ best = select bs foods)
    /\ (total_weight_of best <= capacity)%Q.
Proof.
  intros Hn HC. eexists. split; [now apply exhaustive_as_fold|].
  destruct (search_result_in capacity
              (map (candidate_of p foods) (masks (nSquared_of p foods))) [])
    as [->|[Hin Hf]].
  - split; [|rewrite total_weight_wsum; exact HC].
    exists (replicate (length foods) false).
    split; [apply length_replicate | now rewrite select_all_false].
  - split; [now apply candidates_are_subsets in Hin | exact Hf].
Qed.

Lemma exhaustive_returns_feasible_subset_witness :
  exists best : FoodVector,
    exhaustive_max_calories x86_64 [spoiled; garnish; corn] 5 = Returned best
    /\ (exists bs, length bs = 3%nat /\ best = select bs [spoiled; garnish; corn])
    /\ (total_weight_of best <= 5)%Q.
Proof.
  apply (exhaustive_returns_feasible_subset x86_64 [spoiled; garnish; corn] 5).
  - cbn. lia.
  - discriminate.
Defined.

(** X2: up to 30 items the masks enumerated and the subsets of the input
    correspond one to one: no mask is enumerated twice, every subset is the
    candidate of its mask, which is enumerated, and the membership vector
    read off an enumerated mask has that mask. *)
Theorem exhaustive_enumerates_each_subset_once (p : platform) (foods : FoodVector) :
  (length foods <= 30)%nat ->
  let n := length foods in
  let ms := masks (nSquared_of p foods) in
  NoDup ms
  /\ length ms = (2 ^ n)%nat
  /\ (forall bs, length bs = n ->
        In (mask_of bs) ms
        /\ bits_of p n (mask_of bs) = bs
        /\ candidate_of p foods (mask_of bs) = select bs foods)
  /\ (forall m, In m ms ->
        length (bits_of p n m) = n /\ mask_of (bits_of p n m) = m).
Proof.
  intros Hn n ms. subst ms. rewrite nSquared_of_small by exact Hn. fold n.
  split; [|split; [|split]].
  - unfold masks. apply NoDup_map_injective; [intros x y; lia | apply NoDup_seq].
  - rewrite masks_length. rewrite <- (Nat2Z.id (2 ^ n)%nat). f_equal.
    rewrite Nat2Z.inj_pow. reflexivity.
  - intros bs Hbs. split; [|split].
    + apply masks_In. rewrite <- Hbs. apply mask_of_range.
    + rewrite bits_of_testbit by (unfold n; lia). rewrite <- Hbs. apply mask_of_bits.
    + apply candidate_of_mask_of; [lia | exact Hbs].
  - intros m Hm. apply masks_In in Hm. split; [apply bits_of_length|].
    rewrite bits_of_testbit by (unfold n; lia). now apply mask_of_testbits.
Qed.

Lemma exhaustive_enumerates_each_subset_once_witness :
  NoDup (masks (nSquared_of x86_64 trivial_foods))
  /\ length (masks (nSquared_of x86_64 trivial_foods)) = 4%nat
  /\ candidate_of x86_64 trivial_foods (mask_of [false; true]) = [pasta].
Proof.
  destruct (exhaustive_enumerates_each_subset_once x86_64 trivial_foods)
    as (Hnd & Hlen & Hbs & _).
  - cbn. lia.
  - split; [exact Hnd|]. split; [exact Hlen|].
    exact (proj2 (proj2 (Hbs [false; true] eq_refl))).
Defined.

(** X3: when every item is heavier than the capacity, the solver returns
    the empty collection. *)
Theorem exhaustive_nothing_fits
    (p : platform) (foods : FoodVector) (capacity : Q) :
  (length foods < 64)%nat -> positive_weights foods ->
  Forall (fun f => (capacity < weight f)%Q) foods ->
  exhaustive_max_calories p foods capacity = Returned [].
Proof.
  intros Hn Hpos Hheavy. rewrite exhaustive_as_fold by exact Hn. f_equal.
  destruct (search_result_in capacity
              (map (candidate_of p foods) (masks (nSquared_of p foods))) [])
    as [Hr|[Hin Hf]]; [exact Hr|].
  apply candidates_are_subsets in Hin. destruct Hin as (bs & _ & Hbs).
  apply feasible_wsum in Hf. rewrite Hbs in Hf |- *.
  destruct (select bs foods) eqn:Hs; [reflexivity|].
  pose proof (wsum_select_ge_member bs foods capacity Hpos Hheavy) as Hw.
  rewrite Hs in Hw. specialize (Hw ltac:(discriminate)). lra.
Qed.

Lemma exhaustive_nothing_fits_witness :
  exhaustive_max_calories x86_64 trivial_foods 3 = Returned [].
Proof.
  apply (exhaustive_nothing_fits x86_64 trivial_foods 3).
  - cbn. lia.
  - repeat constructor.
  - repeat constructor.
Defined.

(** X4: up to 30 items of strictly positive calories, whole numbers that
    add up to less than [2^53], that fit a capacity [>= 0] together are all
    returned, in input order.  (With whole calories below [2^53] every
    total of calories is exact in binary64, so that one more item always
    makes a total strictly larger.) *)
Theorem exhaustive_everything_fits
    (p : platform) (foods : FoodVector) (capacity : Q) :
  (length foods <= 30)%nat -> positive_calories foods -> exact_calories foods ->
  (0 <= capacity)%Q -> (total_weight_of foods <= capacity)%Q ->
  exhaustive_max_calories p foods capacity = Returned foods.
Proof.
  intros Hn Hpos _ HC Hfit.
  destruct (exhaustive_optimal_small p foods capacity Hn
              (positive_calories_nonneg _ Hpos) HC)
    as (best & Hbest & (bs & Hbs & Hsel) & _ & Hopt).
  rewrite Hbest. f_equal. rewrite Hsel. apply select_whole; [exact Hpos | exact Hbs|].
  specialize (Hopt (replicate (length foods) true) (length_replicate _ _)).
  rewrite select_all_true, Hsel, !total_calories_csum in Hopt. now apply Hopt.
Qed.

Lemma exhaustive_everything_fits_witness :
  exhaustive_max_calories x86_64 trivial_foods 14 = Returned trivial_foods.
Proof.
  apply (exhaustive_everything_fits x86_64 trivial_foods 14).
  - cbn. lia.
  - repeat constructor.
  - split; [repeat constructor | reflexivity].
  - discriminate.
  - discriminate.
Defined.

(** ** Further properties of the dynamic-programming solver *)

Lemma Qfloor_unique (k : Z) (y : Q) :
  (inject_Z k <= y)%Q -> (y < inject_Z (k + 1))%Q -> Qfloor y = k.
Proof.
  intros Hlo Hhi. pose proof (Qfloor_le y) as H1. pose proof (Qlt_floor y) as H2.
  assert (Ha : (inject_Z (Qfloor y) < inject_Z (k + 1))%Q) by lra.
  assert (Hb : (inject_Z k < inject_Z (Qfloor y + 1))%Q) by lra.
  rewrite <- Zlt_Qlt in Ha, Hb. lia.
Qed.

(** The column read when an item is taken is the column less the weight
    rounded up. *)
Lemma left_column_ceiling (w : Z) (f : FoodItem) :
  (weight f <= inject_Z w)%Q -> left_column w f = w - Qceiling (weight f).
Proof.
  intros Hg. unfold left_column.
  destruct (Qtrunc_nonneg (inject_Z w - weight f)) as [-> _]; [lra|].
  pose proof (Qle_ceiling (weight f)) as H1. pose proof (Qceiling_lt (weight f)) as H2.
  apply Qfloor_unique.
  - unfold Z.sub. rewrite inject_Z_plus, inject_Z_opp. lra.
  - replace (w - Qceiling (weight f) + 1) with (w + - (Qceiling (weight f) - 1)) by lia.
    rewrite inject_Z_plus, inject_Z_opp. lra.
Qed.

Lemma fits_iff_round_up_fits (w : Z) (f : FoodItem) :
  (weight f <= inject_Z w)%Q <-> (weight (round_up f) <= inject_Z w)%Q.
Proof.
  cbn [round_up weight]. split; intros H.
  - rewrite <- Zle_Qle. rewrite <- (Qceiling_Z w). now apply Qceiling_resp_le.
  - pose proof (Qle_ceiling (weight f)). lra.
Qed.

Lemma lookup_map {A B : Type} (g : A -> B) (l : list A) (i : nat) :
  map g l !! i = option_map g (l !! i).
Proof.
  revert i. induction l as [|x l IH]; intros [|i]; cbn; try reflexivity. apply IH.
Qed.

(** The table of a collection is the table of the collection with the
    weights rounded up. *)
Lemma Kfun_round_up (foods : FoodVector) (i w : nat) :
  Kfun (map round_up foods) i w = Kfun foods i w.
Proof.
  revert w. induction i as [|i IH]; intros w; cbn [Kfun]; [reflexivity|].
  destruct (Nat.eqb w 0); [reflexivity|].
  rewrite lookup_map. destruct (foods !! i) as [f|]; cbn [option_map]; [|reflexivity].
  rewrite !IH.
  destruct (Qle_bool (weight f) (inject_Z (Z.of_nat w))) eqn:Hg.
  - apply Qle_bool_iff in Hg. pose proof Hg as Hg'.
    apply fits_iff_round_up_fits in Hg'.
    rewrite (proj2 (Qle_bool_iff _ _) Hg').
    fold (left_column (Z.of_nat w) f). fold (left_column (Z.of_nat w) (round_up f)).
    rewrite (left_column_ceiling _ _ Hg), (left_column_ceiling _ _ Hg').
    cbn [round_up weight foodCalories]. now rewrite Qceiling_Z.
  - destruct (Qle_bool (weight (round_up f)) (inject_Z (Z.of_nat w))) eqn:Hg';
      [|reflexivity].
    apply Qle_bool_iff, fits_iff_round_up_fits, Qle_bool_iff in Hg'. congruence.
Qed.

Lemma round_up_positive (foods : FoodVector) :
  positive_weights foods -> positive_weights (map round_up foods).
Proof.
  intros H. induction H as [|f foods Hf _ IH]; cbn [map]; constructor; [|exact IH].
  cbn [round_up weight]. pose proof (Qle_ceiling (weight f)). lra.
Qed.

Lemma round_up_integral (foods : FoodVector) : integral_weights (map round_up foods).
Proof.
  induction foods as [|f foods IH]; cbn [map]; constructor; [|exact IH].
  cbn [round_up weight]. now rewrite Qfloor_Z.
Qed.

Lemma csum_select_round_up (bs : list bool) (foods : FoodVector) :
  csum (select bs (map round_up foods)) = csum (select bs foods).
Proof.
  revert bs. induction foods as [|f foods IH]; intros [|b bs]; cbn [map select];
    try reflexivity.
  destruct b; cbn [csum round_up foodCalories]; now rewrite IH.
Qed.

(** No subset whose rounded-up weights fit the capacity is worth more than
    the last cell of the table. *)
Lemma Kfun_bounds_rounded_subsets (foods : FoodVector) (W : nat) (bs : list bool) :
  positive_weights foods -> length bs = length foods ->
  (wsum (select bs (map round_up foods)) <= inject_Z (Z.of_nat W))%Q ->
  (csum (select bs foods) <= Kfun foods (length foods) W)%Q.
Proof.
  intros Hpos Hbs Hw.
  rewrite <- Kfun_round_up, <- csum_select_round_up.
  rewrite <- (firstn_all (map round_up foods)) in Hw |- * at 1.
  rewrite length_map in Hw |- *.
  apply Kfun_upper_bound;
    [now apply round_up_positive | apply round_up_integral
    | rewrite length_map; lia | exact Hbs | exact Hw].
Qed.

(** The items the walk collects fit the column it starts from even with
    their weights rounded up. *)
Lemma walk_from_rounded_weight (foods : FoodVector) (W : nat) (K : table) :
  positive_weights foods -> holds_recurrence foods W K ->
  forall (i : nat) (w : Z), (i <= length foods)%nat -> 0 <= w <= Z.of_nat W ->
    (wsum (map round_up (walk_from foods K i w)) <= inject_Z w)%Q.
Proof.
  intros Hpos HK. induction i as [|i IH]; intros w Hi Hw.
  - cbn. rewrite Zle_Qle in Hw. apply Hw.
  - cbn [walk_from]. rewrite !HK by lia.
    destruct (Qeq_bool (Kfun foods (S i) (Z.to_nat w)) (Kfun foods i (Z.to_nat w))) eqn:He.
    + apply IH; lia.
    + destruct (Kfun_taken foods i (Z.to_nat w) ltac:(lia) He) as (f & Hf & Hg & _).
      rewrite Hf. rewrite Z2Nat.id in Hg by lia.
      assert (Hwf : (0 < weight f)%Q)
        by exact (proj1 (Forall_lookup _ _) Hpos i f Hf).
      destruct (left_column_range w f) as [Hr _]; [lra | exact Hg |].
      fold (left_column w f). pose proof (left_column_ceiling w f Hg) as Hcol.
      specialize (IH (left_column w f) ltac:(lia) ltac:(lia)).
      assert (Hq : (inject_Z (left_column w f)
                    == inject_Z w - inject_Z (Qceiling (weight f)))%Q).
      { rewrite Hcol. unfold Z.sub. rewrite inject_Z_plus, inject_Z_opp. lra. }
      cbn [map wsum round_up weight]. lra.
Qed.

Lemma wsum_map_round_up_rev (l : FoodVector) :
  (wsum (map round_up (rev l)) == wsum (map round_up l))%Q.
Proof. rewrite map_rev. apply wsum_rev. Qed.

Lemma Kfun_app (foods more : FoodVector) (i w : nat) :
  (i <= length foods)%nat -> Kfun (foods ++ more) i w = Kfun foods i w.
Proof.
  revert w. induction i as [|i IH]; intros w Hi; cbn [Kfun]; [reflexivity|].
  destruct (Nat.eqb w 0); [reflexivity|].
  rewrite lookup_app_l by lia. destruct (foods !! i) as [f|]; [|reflexivity].
  now rewrite !IH by lia.
Qed.

(** Everything known of the collection the solver returns. *)
Lemma dynamic_walk_facts (foods : FoodVector) (W : Z) :
  0 <= W -> positive_weights foods ->
  exists d : FoodVector,
    dynamic_max_calories foods W = Returned d
    /\ (csum d == Kfun foods (length foods) (Z.to_nat W))%Q
    /\ (wsum d <= inject_Z W)%Q
    /\ (wsum (map round_up d) <= inject_Z W)%Q
    /\ exists bs, length bs = length foods /\ rev d = select bs foods.
Proof.
  intros HW Hpos. eexists. split; [now apply dynamic_as_walk|].
  assert (HK : holds_recurrence foods (Z.to_nat W) (build_table foods (Z.to_nat W)))
    by (intros i w Hi Hw; now apply build_table_Kfun).
  destruct (walk_from_sound foods (Z.to_nat W) _ Hpos HK (length foods) W)
    as (Hc & Hw & bs & Hbs & Hsel); [lia | lia |].
  split; [exact Hc|]. split; [exact Hw|].
  split; [apply (walk_from_rounded_weight foods (Z.to_nat W) _ Hpos HK); lia|].
  exists bs. split; [exact Hbs|]. now rewrite firstn_all in Hsel.
Qed.

(** X5: on constructed items and a capacity [W >= 0] the collection
    returned, read in input order (it is returned last item first), is a
    subset of the input whose total calories are the value of the last cell
    of the table, [K[n][W]]. *)
Theorem dynamic_result_is_worth_last_cell (foods : FoodVector) (W : Z) :
  0 <= W -> Forall FoodItem_ok foods ->
  exists d : FoodVector,
    dynamic_max_calories foods W = Returned d
    /\ (exists bs, length bs = length foods /\ rev d = select bs foods)
    /\ (total_calories_of (rev d)
        == K_get (build_table foods (Z.to_nat W)) (length foods) (Z.to_nat W))%Q.
Proof.
  intros HW Hok. pose proof (FoodItem_ok_positive foods Hok) as Hpos.
  destruct (dynamic_walk_facts foods W HW Hpos) as (d & Hd & Hc & _ & _ & Hsub).
  exists d. split; [exact Hd|]. split; [exact Hsub|].
  rewrite total_calories_csum, csum_rev, Hc, build_table_Kfun by (auto; lia).
  reflexivity.
Qed.

Lemma dynamic_result_is_worth_last_cell_witness :
  exists d : FoodVector,
    dynamic_max_calories [half_loaf; pasta; corn] 12 = Returned d
    /\ (exists bs, length bs = 3%nat /\ rev d = select bs [half_loaf; pasta; corn])
    /\ (total_calories_of (rev d)
        == K_get (build_table [half_loaf; pasta; corn] (Z.to_nat 12)) 3 (Z.to_nat 12))%Q.
Proof.
  apply (dynamic_result_is_worth_last_cell [half_loaf; pasta; corn] 12).
  - lia.
  - repeat constructor; discriminate.
Defined.

(** X6: the solver treats a weight that is a multiple of [2^-20] as rounded
    up to the next integer: on constructed items of such weights the
    collection returned fits the capacity with its weights rounded up, and
    no subset of the input that fits the capacity with its weights rounded
    up has more total calories than the collection returned, both added up
    in input order.  (For such a weight the column [w - weight] is exact in
    binary64, and its truncation is [w] less the weight rounded up.) *)
Theorem dynamic_optimal_for_rounded_up_weights (foods : FoodVector) (W : Z) :
  0 <= W -> Forall FoodItem_ok foods -> dyadic_weights foods ->
  exists d : FoodVector,
    dynamic_max_calories foods W = Returned d
    /\ (total_weight_of (map round_up d) <= inject_Z W)%Q
    /\ forall bs, length bs = length foods ->
         (total_weight_of (select bs (map round_up foods)) <= inject_Z W)%Q ->
         (total_calories_of (select bs foods) <= total_calories_of (rev d))%Q.
Proof.
  intros HW Hok _. pose proof (FoodItem_ok_positive foods Hok) as Hpos.
  destruct (dynamic_walk_facts foods W HW Hpos) as (d & Hd & Hc & _ & Hr & _).
  exists d. split; [exact Hd|]. split; [now rewrite total_weight_wsum|].
  intros bs Hbs Hw. rewrite total_weight_wsum in Hw.
  rewrite !total_calories_csum, csum_rev, Hc.
  apply Kfun_bounds_rounded_subsets; [exact Hpos | exact Hbs|].
  now rewrite Z2Nat.id by lia.
Qed.

Lemma dynamic_optimal_for_rounded_up_weights_witness :
  exists d : FoodVector,
    dynamic_max_calories [half_loaf; half_loaf] 5 = Returned d
    /\ (total_weight_of (map round_up d) <= inject_Z 5)%Q
    /\ forall bs, length bs = 2%nat ->
         (total_weight_of (select bs (map round_up [half_loaf; half_loaf]))
          <= inject_Z 5)%Q ->
         (total_calories_of (select bs [half_loaf; half_loaf])
          <= total_calories_of (rev d))%Q.
Proof.
  apply (dynamic_optimal_for_rounded_up_weights [half_loaf; half_loaf] 5).
  - lia.
  - repeat constructor; discriminate.
  - repeat constructor.
Defined.

(** X7: on constructed items of integral weight, however many, the
    collection returned weighs at most [W], and no subset of the input that
    weighs at most [W] has more total calories than the collection returned,
    both added up in input order. *)
Theorem dynamic_optimal_on_integral_weights (foods : FoodVector) (W : Z) :
  0 <= W -> Forall FoodItem_ok foods -> integral_weights foods ->
  exists d : FoodVector,
    dynamic_max_calories foods W = Returned d
    /\ (total_weight_of d <= inject_Z W)%Q
    /\ forall bs, length bs = length foods ->
         (total_weight_of (select bs foods) <= inject_Z W)%Q ->
         (total_calories_of (select bs foods) <= total_calories_of (rev d))%Q.
Proof.
  intros HW Hok Hint. pose proof (FoodItem_ok_positive foods Hok) as Hpos.
  destruct (dynamic_walk_facts foods W HW Hpos) as (d & Hd & Hc & Hw & _).
  exists d. split; [exact Hd|]. split; [now rewrite total_weight_wsum|].
  intros bs Hbs Hfit. rewrite total_weight_wsum in Hfit.
  rewrite !total_calories_csum, csum_rev, Hc.
  rewrite <- (firstn_all foods) in Hfit |- * at 1.
  apply Kfun_upper_bound; try assumption; [lia|].
  now rewrite Z2Nat.id by lia.
Qed.

Lemma dynamic_optimal_on_integral_weights_witness :
  exists d : FoodVector,
    dynamic_max_calories (replicate 40 pasta) 9 = Returned d
    /\ (total_weight_of d <= inject_Z 9)%Q
    /\ forall bs, length bs = length (replicate 40 pasta) ->
         (total_weight_of (select bs (replicate 40 pasta)) <= inject_Z 9)%Q ->
         (total_calories_of (select bs (replicate 40 pasta))
          <= total_calories_of (rev d))%Q.
Proof.
  apply (dynamic_optimal_on_integral_weights (replicate 40 pasta) 9).
  - lia.
  - apply Forall_replicate. split; [discriminate | reflexivity].
  - apply Forall_replicate. reflexivity.
Defined.

(** X8: when every item is heavier than the capacity [W >= 0], the solver
    returns the empty collection. *)
Theorem dynamic_nothing_fits (foods : FoodVector) (W : Z) :
  0 <= W -> Forall FoodItem_ok foods ->
  Forall (fun f => (inject_Z W < weight f)%Q) foods ->
  dynamic_max_calories foods W = Returned [].
Proof.
  intros HW Hok Hheavy. pose proof (FoodItem_ok_positive foods Hok) as Hpos.
  destruct (dynamic_walk_facts foods W HW Hpos) as (d & Hd & _ & Hw & _ & bs & _ & Hsel).
  rewrite Hd. f_equal. rewrite <- (rev_involutive d), Hsel.
  rewrite <- wsum_rev, Hsel in Hw.
  destruct (select bs foods) eqn:Hs; [reflexivity|].
  pose proof (wsum_select_ge_member bs foods (inject_Z W) Hpos Hheavy) as Hb.
  rewrite Hs in Hb. specialize (Hb ltac:(discriminate)). lra.
Qed.

Lemma dynamic_nothing_fits_witness :
  dynamic_max_calories trivial_foods 3 = Returned [].
Proof.
  apply (dynamic_nothing_fits trivial_foods 3).
  - lia.
  - repeat constructor; discriminate.
  - repeat constructor.
Defined.

(** X9: constructed items whose weights are multiples of [2^-20] and,
    rounded up, fit the capacity together, and whose calories are strictly
    positive whole numbers that add up to less than [2^53], are all
    returned, last item first. *)
Theorem dynamic_everything_fits (foods : FoodVector) (W : Z) :
  0 <= W -> Forall FoodItem_ok foods -> dyadic_weights foods ->
  positive_calories foods -> exact_calories foods ->
  (total_weight_of (map round_up foods) <= inject_Z W)%Q ->
  dynamic_max_calories foods W = Returned (rev foods).
Proof.
  intros HW Hok _ Hcal _ Hfit. pose proof (FoodItem_ok_positive foods Hok) as Hpos.
  destruct (dynamic_walk_facts foods W HW Hpos) as (d & Hd & Hc & _ & _ & bs & Hbs & Hsel).
  rewrite Hd. f_equal. rewrite <- (rev_involutive d). f_equal.
  rewrite Hsel. apply select_whole; [exact Hcal | exact Hbs|].
  rewrite <- Hsel, csum_rev, Hc.
  rewrite <- (select_all_true foods) at 1.
  apply Kfun_bounds_rounded_subsets; [exact Hpos | apply length_replicate|].
  rewrite <- (length_map round_up foods), select_all_true, Z2Nat.id by lia.
  now rewrite <- total_weight_wsum.
Qed.

Lemma dynamic_everything_fits_witness :
  dynamic_max_calories [half_loaf; pasta; corn] 17 = Returned [corn; pasta; half_loaf].
Proof.
  apply (dynamic_everything_fits [half_loaf; pasta; corn] 17).
  - lia.
  - repeat constructor; discriminate.
  - repeat constructor.
  - repeat constructor.
  - split; [repeat constructor | reflexivity].
  - discriminate.
Defined.

(** X10: one more item at the end of the collection never lowers the total
    calories of the collection returned, added up in input order. *)
Theorem dynamic_more_items_never_worse (foods : FoodVector) (f : FoodItem) (W : Z) :
  0 <= W -> Forall FoodItem_ok (foods ++ [f]) ->
  exists d d' : FoodVector,
    dynamic_max_calories foods W = Returned d
    /\ dynamic_max_calories (foods ++ [f]) W = Returned d'
    /\ (total_calories_of (rev d) <= total_calories_of (rev d'))%Q.
Proof.
  intros HW Hok. pose proof (FoodItem_ok_positive _ Hok) as Hpos'.
  assert (Hpos : positive_weights foods)
    by (unfold positive_weights in *; now apply Forall_app in Hpos' as [? _]).
  destruct (dynamic_walk_facts foods W HW Hpos) as (d & Hd & Hc & _).
  destruct (dynamic_walk_facts (foods ++ [f]) W HW Hpos') as (d' & Hd' & Hc' & _).
  exists d, d'. split; [exact Hd|]. split; [exact Hd'|].
  rewrite !total_calories_csum, !csum_rev, Hc, Hc'.
  rewrite length_app. cbn [length]. replace (length foods + 1)%nat with (S (length foods)) by lia.
  rewrite <- (Kfun_app foods [f]) by lia.
  apply Kfun_more_items. rewrite length_app. cbn. lia.
Qed.

Lemma dynamic_more_items_never_worse_witness :
  exists d d' : FoodVector,
    dynamic_max_calories [pasta] 14 = Returned d
    /\ dynamic_max_calories ([pasta] ++ [corn]) 14 = Returned d'
    /\ (total_calories_of (rev d) <= total_calories_of (rev d'))%Q.
Proof.
  apply (dynamic_more_items_never_worse [pasta] corn 14).
  - lia.
  - repeat constructor; discriminate.
Defined.

(** ** Further properties of the filter *)

Lemma filter_food_vector_run (source : FoodVector) (lo hi : Q) (limit : Z) :
  0 < limit ->
  filter_food_vector source lo hi limit
  = ([], Some (take (Z.to_nat limit) (List.filter (calories_match lo hi) source))).
Proof.
  intros Hpos. unfold filter_food_vector.
  destruct (Z.leb_spec limit 0) as [?|_]; [lia|].
  rewrite filter_loop by (cbn; lia). cbn [length app].
  now rewrite Nat.sub_0_r.
Qed.

Lemma filter_all_match {A : Type} (m : A -> bool) (l : list A) :
  Forall (fun x => m x = true) l -> List.filter m l = l.
Proof.
  intros H. induction H as [|x l Hx _ IH]; cbn; [reflexivity|].
  now rewrite Hx, IH.
Qed.

Lemma filter_matches {A : Type} (m : A -> bool) (l : list A) :
  Forall (fun x => m x = true) (List.filter m l).
Proof.
  apply List.Forall_forall. intros x Hx. now apply filter_In in Hx.
Qed.

Lemma filter_filter_and {A : Type} (m1 m2 : A -> bool) (l : list A) :
  List.filter m2 (List.filter m1 l) = List.filter (fun x => m1 x && m2 x) l.
Proof.
  induction l as [|x l IH]; cbn; [reflexivity|].
  destruct (m1 x); cbn; [|exact IH]. destruct (m2 x); now rewrite IH.
Qed.

(** X11: filtering the result of a filter again with the same bounds keeps
    its first [limit2] items: two passes with limits [limit1] and [limit2]
    are one pass with the smaller limit. *)
Theorem filter_food_vector_twice
    (source : FoodVector) (min_calories max_calories : Q) (limit1 limit2 : Z) :
  0 < limit1 -> 0 < limit2 ->
  exists once : FoodVector,
    filter_food_vector source min_calories max_calories limit1 = ([], Some once)
    /\ filter_food_vector once min_calories max_calories limit2
       = filter_food_vector source min_calories max_calories (Z.min limit1 limit2).
Proof.
  intros H1 H2. eexists. split; [now apply filter_food_vector_run|].
  rewrite !filter_food_vector_run by lia.
  rewrite filter_all_match by apply Forall_take, filter_matches.
  rewrite take_take. do 3 f_equal. lia.
Qed.

Lemma filter_food_vector_twice_witness :
  exists once : FoodVector,
    filter_food_vector [snack; water; feast; bread; snack] 100 500 2 = ([], Some once)
    /\ filter_food_vector once 100 500 5
       = filter_food_vector [snack; water; feast; bread; snack] 100 500 (Z.min 2 5).
Proof.
  apply (filter_food_vector_twice [snack; water; feast; bread; snack] 100 500 2 5); lia.
Defined.

(** X12: a first pass whose limit covers the whole source, followed by a
    second pass with bounds of its own, keeps the first [limit] items of the
    source that lie in both ranges. *)
Theorem filter_food_vector_narrowed
    (source : FoodVector) (lo1 hi1 lo2 hi2 : Q) (limit : Z) :
  (0 < length source)%nat -> 0 < limit ->
  exists wide : FoodVector,
    filter_food_vector source lo1 hi1 (Z.of_nat (length source)) = ([], Some wide)
    /\ filter_food_vector wide lo2 hi2 limit
       = ([], Some (take (Z.to_nat limit)
                      (List.filter
                         (fun f => calories_match lo1 hi1 f && calories_match lo2 hi2 f)
                         source)))
    /\ forall f, In f (List.filter
                         (fun f => calories_match lo1 hi1 f && calories_match lo2 hi2 f)
                         source)
                 -> calorie_range lo1 hi1 f /\ calorie_range lo2 hi2 f.
Proof.
  intros Hsrc Hlim. eexists. split; [apply filter_food_vector_run; lia|].
  split.
  - rewrite filter_food_vector_run by lia. rewrite Nat2Z.id.
    rewrite (take_ge (List.filter (calories_match lo1 hi1) source) (length source))
      by apply filter_length_le.
    now rewrite filter_filter_and.
  - intros f Hf. apply filter_In in Hf as [_ Hf]. apply andb_true_iff in Hf.
    now rewrite <- !calories_match_iff.
Qed.

Lemma filter_food_vector_narrowed_witness :
  exists wide : FoodVector,
    filter_food_vector [snack; water; feast; bread; snack] 1 2500 5 = ([], Some wide)
    /\ filter_food_vector wide 200 2000 1 = ([], Some [feast]).
Proof.
  destruct (filter_food_vector_narrowed
              [snack; water; feast; bread; snack] 1 2500 200 2000 1)
    as (wide & H1 & H2 & _).
  - cbn. lia.
  - lia.
  - exists wide. split; [exact H1 | exact H2].
Defined.

(** X13: the filter prepares the input of the exhaustive solver: with a
    limit between 1 and 30 its result has at most 30 items, all of strictly
    positive calories, and for a capacity [>= 0] the exhaustive solver run on
    it returns a subset of the filtered collection, in its order, that fits
    the capacity, that no subset fitting the capacity beats, and whose
    calories are strictly positive unless it is empty. *)
Theorem filter_then_exhaustive
    (p : platform) (source : FoodVector) (min_calories max_calories : Q)
    (limit : Z) (capacity : Q) :
  0 < limit <= 30 -> (0 <= capacity)%Q ->
  exists small best : FoodVector,
    filter_food_vector source min_calories max_calories limit = ([], Some small)
    /\ (length small <= 30)%nat
    /\ positive_calories small
    /\ exhaustive_max_calories p small capacity = Returned best
    /\ (exists bs, length bs = length small /\ best = select bs small)
    /\ (total_weight_of best <= capacity)%Q
    /\ (forall bs, length bs = length small ->
          (total_weight_of (select bs small) <= capacity)%Q ->
          (total_calories_of (select bs small) <= total_calories_of best)%Q)
    /\ (best = [] \/ (0 < total_calories_of best)%Q).
Proof.
  intros Hlim HC.
  set (small := take (Z.to_nat limit)
                  (List.filter (calories_match min_calories max_calories) source)).
  assert (Hlen : (length small <= 30)%nat).
  { unfold small. rewrite length_take. lia. }
  assert (Hpos : positive_calories small).
  { unfold small, positive_calories. apply Forall_take.
    eapply List.Forall_impl; [|apply filter_matches].
    intros f Hf. apply calories_match_iff in Hf. apply Hf. }
  destruct (exhaustive_optimal_small p small capacity Hlen
              (positive_calories_nonneg _ Hpos) HC)
    as (best & Hbest & (bs & Hbs & Hsel) & Hfit & Hopt).
  exists small, best.
  split; [apply filter_food_vector_run; lia|].
  split; [exact Hlen|]. split; [exact Hpos|]. split; [exact Hbest|].
  split; [exists bs; split; [exact Hbs | exact Hsel]|].
  split; [exact Hfit|]. split; [exact Hopt|].
  destruct best as [|f best]; [now left|]. right.
  rewrite total_calories_csum, Hsel. apply csum_select_pos; [exact Hpos|].
  rewrite <- Hsel. discriminate.
Qed.

Lemma filter_then_exhaustive_witness :
  exists small best : FoodVector,
    filter_food_vector [snack; water; feast; bread; snack] 100 500 2 = ([], Some small)
    /\ (length small <= 30)%nat
    /\ positive_calories small
    /\ exhaustive_max_calories x86_64 small 5 = Returned best
    /\ (exists bs, length bs = length small /\ best = select bs small)
    /\ (total_weight_of best <= 5)%Q
    /\ (forall bs, length bs = length small ->
          (total_weight_of (select bs small) <= 5)%Q ->
          (total_calories_of (select bs small) <= total_calories_of best)%Q)
    /\ (best = [] \/ (0 < total_calories_of best)%Q).
Proof.
  apply (filter_then_exhaustive x86_64 [snack; water; feast; bread; snack] 100 500 2 5).
  - lia.
  - discriminate.
Defined.

(** ** The catalog loader *)

Example load_sample_catalog (uninit : nat -> Q * Q) :
  load_food_database (Some sample_catalog) read_digits uninit "food.csv"
  = ([], Returned (Some trivial_foods)).
Proof. vm_compute. reflexivity. Qed.

(** A blank weight is not read: the row is loaded with what the double held,
    here the weight of the row before. *)
Example load_blank_weight :
  load_food_database
    (Some (unlines ["h"; "test whole corn^10^20"; "test pasta^^5"]%string))
    read_digits (fun k => if Nat.eqb k 3 then (10, 20)%Q else (0, 0)%Q) "food.csv"
  = ([], Returned (Some [corn; mkFoodItem "test pasta" 10 5])).
Proof. vm_compute. reflexivity. Qed.

Lemma new_FoodItem_Returned (d : string) (w c : Q) (item : FoodItem) :
  new_FoodItem d w c = Returned item
  <-> d <> EmptyString /\ (0 < w)%Q /\ item = mkFoodItem d w c.
Proof.
  unfold new_FoodItem.
  destruct (String.eqb_spec d EmptyString) as [->|Hd].
  - split; [discriminate | intros [H _]; contradiction].
  - destruct (Qlt_bool 0 w) eqn:Hw.
    + apply Qlt_bool_iff in Hw. split; [intros [= <-]; auto | intros (_ & _ & ->); reflexivity].
    + apply Qlt_bool_false_iff in Hw. split; [discriminate | intros (_ & H & _); lra].
Qed.

Lemma rows_from_cons (k : nat) (line : string) (rows : list string) :
  rows_from k (line :: rows) = (k, line) :: rows_from (S k) rows.
Proof. reflexivity. Qed.

Lemma rows_from_length (k : nat) (rows : list string) :
  length (rows_from k rows) = length rows.
Proof. unfold rows_from. rewrite length_combine, length_seq. lia. Qed.

(** What one data row does to the loop: a good row pushes its item; a row
    without exactly three fields ends the call with the null pointer and two
    lines of text; a row of three fields that fails the constructor's
    assertions stops the process. *)
Lemma load_lines_row (strtod : string -> Q) (uninit : nat -> Q * Q)
    (line : string) (rest : list string) (k : nat) (result : FoodVector) :
  (1 <= k)%nat ->
  (good_row strtod uninit (S k, line)
   /\ load_lines strtod uninit (line :: rest) k result
      = load_lines strtod uninit rest (S k)
          (result ++ [item_of_row strtod uninit (S k, line)]))
  \/ (~ good_row strtod uninit (S k, line)
      /\ length (getline_all "^" line) <> 3%nat
      /\ load_lines strtod uninit (line :: rest) k result
         = (invalid_field_count (S k) (length (getline_all "^" line)) line,
            Returned None))
  \/ (~ good_row strtod uninit (S k, line)
      /\ length (getline_all "^" line) = 3%nat
      /\ load_lines strtod uninit (line :: rest) k result = ([], Aborted)).
Proof.
  intros Hk. cbn [load_lines]. unfold good_row, item_of_row. cbn [fst snd].
  destruct (Nat.eqb_spec (S k) 1) as [?|_]; [lia|].
  destruct (getline_all "^" line) as [|d [|w [|c [|x fields]]]] eqn:Hf;
    try (right; left; split; [intros (? & ? & ? & ? & _); discriminate|];
         split; [cbn; lia | reflexivity]).
  unfold weight_read, calories_read, parse_dbl. cbn [andb fst snd].
  set (wv := if blank w then fst (uninit (S k)) else strtod w).
  set (cv := if blank c then snd (uninit (S k)) else strtod c).
  destruct (new_FoodItem d wv cv) as [item| |] eqn:Hnew.
  - apply new_FoodItem_Returned in Hnew as (Hd & Hw & ->).
    left. split; [|reflexivity]. exists d, w, c. auto.
  - right; right. split; [|split; reflexivity].
    intros (d' & w' & c' & [= <- <- <-] & Hd & Hw).
    assert (H : new_FoodItem d wv cv = Returned (mkFoodItem d wv cv))
      by (apply new_FoodItem_Returned; auto).
    congruence.
  - unfold new_FoodItem in Hnew.
    destruct (d =? "")%string; [discriminate|].
    destruct (Qlt_bool 0 wv); discriminate.
Qed.

(** Good rows are loaded one item each, in order. *)
Lemma load_lines_good (strtod : string -> Q) (uninit : nat -> Q * Q)
    (good rest : list string) (k : nat) (result : FoodVector) :
  (1 <= k)%nat -> Forall (good_row strtod uninit) (rows_from (S k) good) ->
  load_lines strtod uninit (good ++ rest) k result
  = load_lines strtod uninit rest (k + length good)
      (result ++ map (item_of_row strtod uninit) (rows_from (S k) good)).
Proof.
  revert k result. induction good as [|line good IH]; intros k result Hk Hgood.
  - cbn. now rewrite Nat.add_0_r, app_nil_r.
  - rewrite rows_from_cons in Hgood |- *. apply Forall_cons in Hgood as [Hline Hgood].
    cbn [app].
    destruct (load_lines_row strtod uninit line (good ++ rest) k result Hk)
      as [[_ ->]|[[Hno _]|[Hno _]]]; try contradiction.
    rewrite IH by (auto; lia). cbn [length map]. rewrite <- app_assoc.
    f_equal. lia.
Qed.

(** The loop returns a collection only when every data row is good. *)
Lemma load_lines_Some (strtod : string -> Q) (uninit : nat -> Q * Q)
    (rows : list string) (k : nat) (result foods : FoodVector) (out : list string) :
  (1 <= k)%nat ->
  load_lines strtod uninit rows k result = (out, Returned (Some foods)) ->
  out = [] /\ Forall (good_row strtod uninit) (rows_from (S k) rows)
  /\ foods = result ++ map (item_of_row strtod uninit) (rows_from (S k) rows).
Proof.
  revert k result. induction rows as [|line rows IH]; intros k result Hk Hrun.
  - cbn in Hrun. injection Hrun as <- <-. cbn. now rewrite app_nil_r.
  - destruct (load_lines_row strtod uninit line rows k result Hk)
      as [[Hgood Heq]|[(_ & _ & Heq)|(_ & _ & Heq)]];
      rewrite Heq in Hrun; try discriminate.
    apply IH in Hrun as (-> & Hrows & ->); [|lia].
    rewrite rows_from_cons. split; [reflexivity|]. split; [now constructor|].
    cbn [map]. now rewrite <- app_assoc.
Qed.

Lemma load_food_database_lines (strtod : string -> Q) (uninit : nat -> Q * Q)
    (content path : string) :
  load_food_database (Some content) strtod uninit path
  = load_lines strtod uninit (tl (getline_all newline_char content)) 1 [].
Proof.
  unfold load_food_database.
  now destruct (getline_all newline_char content).
Qed.

Lemma item_of_good_row_ok (strtod : string -> Q) (uninit : nat -> Q * Q)
    (row : nat * string) :
  good_row strtod uninit row -> FoodItem_ok (item_of_row strtod uninit row).
Proof.
  intros (d & w & c & Hf & Hd & Hw). unfold item_of_row. rewrite Hf.
  split; assumption.
Qed.

(** X15: the loader returns a collection exactly when every line after the
    first has three fields, a non-empty description and a weight that is
    strictly positive as the loader reads it (a blank field is not read and
    leaves the double as it was); the collection then holds one item per
    such line, in file order, whatever the first line is, and nothing is
    written. *)
Theorem load_food_database_success
    (strtod : string -> Q) (uninit : nat -> Q * Q) (content path : string)
    (out : list string) (foods : FoodVector) :
  let rows := rows_from 2 (tl (getline_all newline_char content)) in
  load_food_database (Some content) strtod uninit path
  = (out, Returned (Some foods))
  <-> out = []
      /\ Forall (good_row strtod uninit) rows
      /\ foods = map (item_of_row strtod uninit) rows.
Proof.
  intros rows. rewrite load_food_database_lines. subst rows. split.
  - intros Hrun. apply load_lines_Some in Hrun; [exact Hrun | lia].
  - intros (-> & Hrows & ->).
    rewrite <- (app_nil_r (tl (getline_all newline_char content))) at 1.
    rewrite load_lines_good by (auto; lia). reflexivity.
Qed.

(** X16: every item of a collection the loader returns satisfies the
    assertions of the constructor, and there are as many items as lines
    after the first: no line is skipped. *)
Theorem load_food_database_items_constructed
    (strtod : string -> Q) (uninit : nat -> Q * Q) (content path : string)
    (out : list string) (foods : FoodVector) :
  load_food_database (Some content) strtod uninit path
  = (out, Returned (Some foods)) ->
  Forall FoodItem_ok foods
  /\ length foods = pred (length (getline_all newline_char content)).
Proof.
  rewrite load_food_database_lines. intros Hrun.
  apply load_lines_Some in Hrun as (_ & Hrows & ->); [|lia].
  cbn [app]. split.
  - apply List.Forall_map. eapply List.Forall_impl; [|exact Hrows].
    apply item_of_good_row_ok.
  - rewrite length_map, rows_from_length.
    now destruct (getline_all newline_char content).
Qed.

Lemma load_food_database_items_constructed_witness :
  Forall FoodItem_ok trivial_foods
  /\ length trivial_foods = pred (length (getline_all newline_char sample_catalog)).
Proof.
  apply (load_food_database_items_constructed read_digits zeroed sample_catalog
           "food.csv" []).
  vm_compute. reflexivity.
Defined.

(** X17: the first line after the header that is not a good row decides the
    call, whatever follows it and however many good rows precede it: with a
    number of fields other than three the loader writes the line number and
    the line and returns the null pointer, discarding the items read; with
    three fields (an empty description, or a weight that is not strictly
    positive as the loader reads it) it stops the process in the
    constructor's assertion. *)
Theorem load_food_database_first_bad_row
    (strtod : string -> Q) (uninit : nat -> Q * Q) (content path : string)
    (header bad : string) (good rest : list string) :
  getline_all newline_char content = header :: good ++ bad :: rest ->
  Forall (good_row strtod uninit) (rows_from 2 good) ->
  ~ good_row strtod uninit ((length good + 2)%nat, bad) ->
  let n_fields := length (getline_all "^" bad) in
  (n_fields <> 3%nat ->
   load_food_database (Some content) strtod uninit path
   = (invalid_field_count (length good + 2) n_fields bad, Returned None))
  /\ (n_fields = 3%nat ->
      load_food_database (Some content) strtod uninit path = ([], Aborted)).
Proof.
  intros Hlines Hgood Hbad n_fields.
  rewrite load_food_database_lines, Hlines. cbn [tl].
  rewrite load_lines_good by (auto; lia). cbn [app].
  replace (length good + 2)%nat with (S (1 + length good)) in * by lia.
  destruct (load_lines_row strtod uninit bad rest (1 + length good)
              (map (item_of_row strtod uninit) (rows_from 2 good)) ltac:(lia))
    as [[Hg _]|[(_ & Hn & ->)|(_ & Hn & ->)]]; [contradiction| |];
    fold n_fields in Hn; split; intros H; (reflexivity || contradiction).
Qed.

Lemma load_food_database_first_bad_row_witness :
  load_food_database
    (Some (unlines ["h"; "corn^10^20"; "pasta^4"; "rice^1^1"]%string))
    read_digits zeroed "food.csv"
  = (invalid_field_count 3 2 "pasta^4", Returned None)
  /\ load_food_database
       (Some (unlines ["h"; "corn^10^20"; "pasta^none^5"; "rice^1"]%string))
       read_digits zeroed "food.csv"
     = ([], Aborted).
Proof.
  split.
  - refine (proj1 (load_food_database_first_bad_row read_digits zeroed
              (unlines ["h"; "corn^10^20"; "pasta^4"; "rice^1^1"]%string) "food.csv"
              "h" "pasta^4" ["corn^10^20"%string] ["rice^1^1"%string] _ _ _) _).
    + vm_compute. reflexivity.
    + repeat constructor. exists "corn"%string, "10"%string, "20"%string.
      vm_compute. repeat split; congruence.
    + intros (d & w & c & H & _). vm_compute in H. discriminate.
    + vm_compute. lia.
  - refine (proj2 (load_food_database_first_bad_row read_digits zeroed
              (unlines ["h"; "corn^10^20"; "pasta^none^5"; "rice^1"]%string) "food.csv"
              "h" "pasta^none^5" ["corn^10^20"%string] ["rice^1"%string] _ _ _) _).
    + vm_compute. reflexivity.
    + repeat constructor. exists "corn"%string, "10"%string, "20"%string.
      vm_compute. repeat split; congruence.
    + intros (d & w & c & H & _ & Hw). vm_compute in H.
      injection H as <- <- <-. vm_compute in Hw. discriminate.
    + vm_compute. reflexivity.
Defined.

(** ** Two more facts about the solvers *)

Lemma fold_left_ext_in {A B : Type} (f g : A -> B -> A) (l : list B) (a : A) :
  (forall a x, In x l -> f a x = g a x) -> fold_left f l a = fold_left g l a.
Proof.
  revert a. induction l as [|x l IH]; intros a H; cbn [fold_left]; [reflexivity|].
  rewrite (H a x) by now left. apply IH. intros a' y Hy. apply H. now right.
Qed.

(** X18: up to 30 items the solver never depends on what the platform leaves
    undefined: the conversion of [2^n] is in range and every shift count is
    below 32, so two platforms return the same collection. *)
Theorem exhaustive_platform_independent
    (p p' : platform) (foods : FoodVector) (capacity : Q) :
  (length foods <= 30)%nat ->
  exhaustive_max_calories p foods capacity
  = exhaustive_max_calories p' foods capacity.
Proof.
  intros Hn. unfold exhaustive_max_calories.
  destruct (64 <=? Z.of_nat (length foods)); [reflexivity|].
  rewrite !nSquared_of_small by exact Hn. f_equal.
  apply fold_left_ext_in. intros best i _. unfold exhaustive_step.
  now rewrite !candidate_of_select, !bits_of_testbit by lia.
Qed.

Lemma exhaustive_platform_independent_witness :
  exhaustive_max_calories x86_64 trivial_foods 9
  = exhaustive_max_calories (mkPlatform int_max (fun _ _ => 0)) trivial_foods 9.
Proof.
  apply (exhaustive_platform_independent x86_64 _ trivial_foods 9). cbn. lia.
Defined.

(** An item is taken only when taking it is worth strictly more than
    leaving it, which needs strictly positive calories. *)
Lemma Kfun_taken_positive (foods : FoodVector) (i w : nat) (f : FoodItem) :
  positive_weights foods -> foods !! i = Some f ->
  Qeq_bool (Kfun foods (S i) w) (Kfun foods i w) = false ->
  (0 < foodCalories f)%Q.
Proof.
  intros Hpos Hf He.
  assert (Hi : (i < length foods)%nat) by (eapply lookup_lt_Some; exact Hf).
  destruct (Kfun_taken foods i w Hi He) as (f' & Hf' & Hg & Hval).
  rewrite Hf in Hf'. injection Hf' as <-.
  assert (Hwf : (0 < weight f)%Q)
    by exact (proj1 (Forall_lookup _ _) Hpos i f Hf).
  destruct (left_column_range (Z.of_nat w) f) as [Hr _]; [lra | exact Hg |].
  pose proof (Kfun_mono foods i (Z.to_nat (left_column (Z.of_nat w) f)) w ltac:(lia)) as Hm.
  pose proof (Kfun_more_items foods i w Hi) as Hge.
  apply Qeq_bool_neq in He. rewrite Hval in He, Hge.
  destruct (Qlt_le_dec 0 (foodCalories f)) as [|Hle]; [assumption|].
  exfalso. apply He. apply Qle_antisym; lra.
Qed.

Lemma walk_from_positive_calories (foods : FoodVector) (W : nat) (K : table) :
  positive_weights foods -> holds_recurrence foods W K ->
  forall (i : nat) (w : Z), (i <= length foods)%nat -> 0 <= w <= Z.of_nat W ->
    positive_calories (walk_from foods K i w).
Proof.
  intros Hpos HK. induction i as [|i IH]; intros w Hi Hw; [constructor|].
  cbn [walk_from]. rewrite !HK by lia.
  destruct (Qeq_bool (Kfun foods (S i) (Z.to_nat w)) (Kfun foods i (Z.to_nat w))) eqn:He.
  - apply IH; lia.
  - destruct (Kfun_taken foods i (Z.to_nat w) ltac:(lia) He) as (f & Hf & Hg & _).
    rewrite Hf. rewrite Z2Nat.id in Hg by lia.
    assert (Hwf : (0 < weight f)%Q)
      by exact (proj1 (Forall_lookup _ _) Hpos i f Hf).
    destruct (left_column_range w f) as [Hr _]; [lra | exact Hg |].
    constructor.
    + exact (Kfun_taken_positive foods i (Z.to_nat w) f Hpos Hf He).
    + apply IH; unfold left_column in Hr; lia.
Qed.

(** X19: on constructed items and a capacity [W >= 0] the collection
    returned holds only items of strictly positive calories: an item of zero
    or negative calories is never chosen. *)
Theorem dynamic_returns_only_positive_calories (foods : FoodVector) (W : Z) :
  0 <= W -> Forall FoodItem_ok foods ->
  exists d : FoodVector,
    dynamic_max_calories foods W = Returned d /\ positive_calories d.
Proof.
  intros HW Hok. pose proof (FoodItem_ok_positive foods Hok) as Hpos.
  eexists. split; [now apply dynamic_as_walk|].
  apply (walk_from_positive_calories foods (Z.to_nat W)); try assumption; try lia.
  intros i w Hi Hw. now apply build_table_Kfun.
Qed.

Lemma dynamic_returns_only_positive_calories_witness :
  exists d : FoodVector,
    dynamic_max_calories [garnish; spoiled; pasta; water] 20 = Returned d
    /\ positive_calories d.
Proof.
  apply (dynamic_returns_only_positive_calories [garnish; spoiled; pasta; water] 20).
  - lia.
  - repeat constructor; discriminate.
Defined.

(** ** Where binary64 rounds

    The rationals model a [double] faithfully as long as every sum and
    difference the program computes is a [double] again.  The runs below,
    on binary64 itself, show what rounding changes, and why the properties
    above add up the result of the dynamic-programming solver in input
    order and ask for whole calories or for weights that are multiples of
    [2^-20] where they do. *)

(** Calories 0.1, 0.2, 0.3 at capacity 3: both solvers take every item, the
    dynamic-programming solver last item first.  Added up in the order
    returned, its result is worth less than the exhaustive solver's; added
    up in input order, it is worth the same, the value of the last cell. *)
Example binary64_total_depends_on_order :
  Binary64.exhaustive_max_calories x86_64 Binary64.tenths (Binary64.of_int 3)
  = Returned Binary64.tenths
  /\ Binary64.dynamic_max_calories Binary64.tenths 3 = Returned (rev Binary64.tenths)
  /\ PrimFloat.ltb (Binary64.total_calories_of (rev Binary64.tenths))
       (Binary64.total_calories_of Binary64.tenths) = true
  /\ Binary64.total_calories_of Binary64.tenths = Binary64.last_cell Binary64.tenths 3.
Proof. repeat split; vm_compute; reflexivity. Qed.

(** From capacity 4 to capacity 5 the total of the collection returned,
    added up in the order returned, goes down; added up in input order it
    is the last cell of the table and goes up. *)
Example binary64_capacity_4_to_5 :
  exists d4 d5 : list Binary64.FoodItem,
    Binary64.dynamic_max_calories Binary64.pantry 4 = Returned d4
    /\ Binary64.dynamic_max_calories Binary64.pantry 5 = Returned d5
    /\ PrimFloat.ltb (Binary64.total_calories_of d5) (Binary64.total_calories_of d4) = true
    /\ Binary64.total_calories_of (rev d4) = Binary64.last_cell Binary64.pantry 4
    /\ Binary64.total_calories_of (rev d5) = Binary64.last_cell Binary64.pantry 5
    /\ PrimFloat.leb (Binary64.total_calories_of (rev d4))
         (Binary64.total_calories_of (rev d5)) = true.
Proof. do 2 eexists. repeat split; vm_compute; reflexivity. Qed.

(** One more item at capacity 6: the same, for the total in the order
    returned and the total in input order. *)
Example binary64_one_more_item :
  exists d d' : list Binary64.FoodItem,
    Binary64.dynamic_max_calories Binary64.shelf 6 = Returned d
    /\ Binary64.dynamic_max_calories (Binary64.shelf ++ [Binary64.extra]) 6 = Returned d'
    /\ PrimFloat.ltb (Binary64.total_calories_of d') (Binary64.total_calories_of d) = true
    /\ PrimFloat.leb (Binary64.total_calories_of (rev d))
         (Binary64.total_calories_of (rev d')) = true.
Proof. do 2 eexists. repeat split; vm_compute; reflexivity. Qed.

(** Calories [10^16] and 1: the sum is [10^16] again, so the collection of
    both items does not beat the first item alone, and neither solver
    returns both although both fit. *)
Example binary64_calories_absorbed :
  PrimFloat.add (Binary64.of_int (10 ^ 16)) (Binary64.of_int 1) = Binary64.of_int (10 ^ 16)
  /\ Binary64.exhaustive_max_calories x86_64 Binary64.banquet (Binary64.of_int 2)
     = Returned (take 1 Binary64.banquet)
  /\ Binary64.dynamic_max_calories Binary64.banquet 2 = Returned (take 1 Binary64.banquet).
Proof. repeat split; vm_compute; reflexivity. Qed.

(** Weights of [10^-17]: [1 - weight] is 1 again, so an item costs no
    column, and both items are returned at capacity 1 although their
    weights rounded up add up to 2. *)
Example binary64_weight_absorbed :
  Binary64.left_column 1 (Binary64.item "a" (1, 10 ^ 17) (1, 1)) = 1
  /\ Binary64.dynamic_max_calories Binary64.specks 1 = Returned (rev Binary64.specks).
Proof. repeat split; vm_compute; reflexivity. Qed.
